(** * hackernews-terminal: a model of [main.py] and the properties of its spec

    The program asks the Hacker News API for the ranked list of story ids of
    a mode, cuts a window out of it, fetches every story of the window in a
    thread pool behind a rate limiter, and prints one table row per story.

    The model follows [main.py] function by function.  Python integers are
    [Z], strings are [string], dictionaries are [gmap], exceptions are the
    [Exn] results of an error monad, and everything the program does to the
    outside (clock reads, sleeps, HTTP requests) goes through an explicit
    machine state. *)

From stdpp Require Import base gmap list strings pretty.
From Stdlib Require Import ZArith QArith Lia Lqa.

Local Open Scope Z_scope.

(** ** Python values and results *)

(** The exceptions that can leave a function of [main.py]. *)
Inductive exn :=
| RequestException   (* raised by [requests.get(...)] or by [.json()] *)
| KeyError           (* a dictionary subscript on a missing key *)
| ValueError         (* [ThreadPoolExecutor(max_workers=0)] *)
| AttributeError.    (* [.get] on a value that has none *)

(** A computation either returns a value or raises. *)
Inductive res (A : Type) :=
| Val (a : A)
| Exn (e : exn).
Arguments Val {A} a.
Arguments Exn {A} e.

#[global] Instance res_ret : MRet res := λ A a, Val a.
#[global] Instance res_bind : MBind res := λ A B f m,
  match m with
  | Val a => f a
  | Exn e => Exn e
  end.

(** [d[k]] on a dictionary. *)
Definition subscript `{Lookup K V D} (d : D) (k : K) : res V :=
  match d !! k with
  | Some v => Val v
  | None => Exn KeyError
  end.

(** [x or default] on an optional string: [None] and the empty string are
    the falsy values. *)
Definition py_or (x : option string) (default : string) : string :=
  match x with
  | Some s => if decide (s = "") then default else s
  | None => default
  end.

(** An index of a slice, clamped to the list as Python does: a negative
    index counts from the end. *)
Definition slice_index (len i : Z) : Z :=
  if i <? 0 then Z.max (i + len) 0 else Z.min i len.

(** [l[a:b]] *)
Definition py_slice {A} (l : list A) (a b : Z) : list A :=
  let len := Z.of_nat (length l) in
  let lo := slice_index len a in
  let hi := slice_index len b in
  take (Z.to_nat (hi - lo)) (drop (Z.to_nat lo) l).

(** [enumerate(l, start)] *)
Definition enumerate {A} (l : list A) (start : Z) : list (Z * A) :=
  imap (λ i x, (start + Z.of_nat i, x)) l.

(** ** The outside world *)

(** What a network request answers: it raises, or its body parses to a JSON
    value of the endpoint's type. *)
Inductive response (A : Type) :=
| Raised
| Json (a : A).
Arguments Raised {A}.
Arguments Json {A} a.

(** A story object: the JSON object of the item endpoint, read only through
    its string fields [title] and [url]. *)
Abbreviation story := (gmap string string).

(** The world a run meets: the successive readings of [time.time()]
    (rationals stand for Python's floats), the listing endpoint by mode, and
    the item endpoint.  The answer to an item request may depend on which
    fetch task asks (tasks are numbered by the position of their id in the
    window). *)
Record world := World {
  clock : nat → Q;
  listing : string → response (list Z);
  item : nat → Z → response story
}.

(** The scheduling of one run: the order in which the fetch tasks get
    through the rate limiter's lock, and the order in which
    [as_completed] hands their futures back. *)
Record schedule := Schedule {
  admitted : list nat;
  completed : list nat
}.

(** What the program does to the outside, oldest first. *)
Inductive event :=
| Sleep (seconds : Q)      (* [time.sleep(seconds)] *)
| Get (url : string).      (* [requests.get(url, timeout=10)] *)

(** The state a run threads along: the limiter's [last_time[0]], the number
    of clock readings taken so far, and the log of events. *)
Record machine := Machine {
  last_time : Q;
  clock_reads : nat;
  log : list event
}.

Definition M (A : Type) : Type := machine → A * machine.

#[global] Instance M_ret : MRet M := λ A a σ, (a, σ).
#[global] Instance M_bind : MBind M := λ A B f m σ,
  let '(a, σ') := m σ in f a σ'.

Definition emit (e : event) : M unit := λ σ,
  (tt, Machine (last_time σ) (clock_reads σ) (log σ ++ [e])).

Definition time_time (w : world) : M Q := λ σ,
  (clock w (clock_reads σ), Machine (last_time σ) (S (clock_reads σ)) (log σ)).

Definition time_sleep (seconds : Q) : M unit := emit (Sleep seconds).

Definition requests_get (url : string) : M unit := emit (Get url).

Definition get_last_time : M Q := λ σ, (last_time σ, σ).

Definition set_last_time (t : Q) : M unit := λ σ,
  (tt, Machine t (clock_reads σ) (log σ)).

(** ** [rate_limit] *)

(** [interval = 1.0 / calls_per_sec] *)
Definition interval (calls_per_sec : Z) : Q := (1 / inject_Z calls_per_sec)%Q.

(** [rate_limit(calls_per_sec)]: the limiter starts with [last_time = [0.0]]. *)
Definition rate_limit : M unit := set_last_time 0%Q.

(** [wrapper], the decorated function: the body of [with lock:] and then the
    call of [func]. *)
Definition wrapper {A} (w : world) (calls_per_sec : Z) (func : M A) : M A :=
  now ← time_time w;
  last ← get_last_time;
  let elapsed := (now - last)%Q in
  let wait := (interval calls_per_sec - elapsed)%Q in
  _ ← (if negb (Qle_bool wait 0) then time_sleep wait else mret tt);
  t ← time_time w;
  _ ← set_last_time t;
  func.

(** ** [get_stories] *)

Definition BASE : string := "https://hacker-news.firebaseio.com/v0".
Definition STORIES (mode : string) : string := BASE +:+ "/" +:+ mode +:+ "stories.json".
Definition ITEM (id : Z) : string := BASE +:+ "/item/" +:+ pretty id +:+ ".json".

(** [get_article_by_id], decorated with [@rate_limit(10)]; [task] numbers
    the fetch task that makes the call. *)
Definition get_article_by_id (w : world) (task : nat) (id : Z) : M (response story) :=
  wrapper w 10 (_ ← requests_get (ITEM id); mret (item w task id)).

(** A table cell: a plain string, or a [rich.text.Text] with its style. *)
Inductive cell :=
| Plain (s : string)
| Text (s : string) (style : string).

(** A table row, under the columns "No.", "Title" and "URL". *)
Record row := Row {
  row_no : string;
  row_title : cell;
  row_url : cell
}.

#[global] Instance cell_eq_dec : EqDecision cell.
Proof. solve_decision. Defined.
#[global] Instance row_eq_dec : EqDecision row.
Proof. solve_decision. Defined.

(** The [except] branch of the collecting loop. *)
Definition placeholder_row (index : Z) : row :=
  Row (pretty index) (Plain "<RATE LIMITED>") (Plain "😭").

Definition displayed_title (s : story) : string :=
  py_or (s !! "title") "<no title>".

Definition displayed_url (id : Z) (s : story) : string :=
  py_or (s !! "url") ("https://news.ycombinator.com/item?id=" +:+ pretty id).

(** The [else] branch of the collecting loop. *)
Definition story_row (id index : Z) (s : story) : row :=
  Row (pretty index)
      (Text (displayed_title s) "bold yellow")
      (Text (displayed_url id s) "blue underline").

(** The row a completed future leaves in [id_to_post]. *)
Definition post_row (id index : Z) (result : response story) : row :=
  match result with
  | Raised => placeholder_row index
  | Json s => story_row id index s
  end.

(** [{ id : i for i, id in enumerate(ids, start) }]: a later pair
    overwrites an earlier one with the same id. *)
Definition id_to_index (ids : list Z) (start : Z) : gmap Z Z :=
  foldl (λ d '(i, id), <[id := i]> d) ∅ (enumerate ids start).

(** [future_to_id]: the future of task [k] is the one submitted for the
    [k]-th id. *)
Definition future_to_id (ids : list Z) : gmap nat Z := map_seq 0 ids.

(** One round of the loop over [as_completed(future_to_id)]: the two
    dictionaries built before the loop are only read, [id_to_post] is
    written. *)
Definition on_completed (w : world) (future_to_id : gmap nat Z) (id_to_index : gmap Z Z)
    (id_to_post : gmap Z row) (future : nat) : res (gmap Z row) :=
  id ← subscript future_to_id future;
  index ← subscript id_to_index id;
  mret (<[id := post_row id index (item w future id)]> id_to_post).

Fixpoint for_each {S A} (body : S → A → res S) (s : S) (l : list A) : res S :=
  match l with
  | [] => Val s
  | x :: l' => s' ← body s x; for_each body s' l'
  end.

(** What a run that reaches [console.print] shows: the total handed to the
    progress bar, the number of times the bar advanced, and the rows of the
    table. *)
Record report := Report {
  total_posts : nat;
  progress : nat;
  table : list row
}.

(** The collecting loop and the loop that fills the table. *)
Definition collect (w : world) (ids : list Z) (start : Z) (order : list nat) : res report :=
  let total_posts := length ids in
  let id_to_index := id_to_index ids start in
  let future_to_id := future_to_id ids in
  id_to_post ← for_each (on_completed w future_to_id id_to_index) ∅ order;
  rows ← mapM (subscript id_to_post) ids;
  mret (Report total_posts (length order) rows).

(** The fetch tasks as the pool runs them: each one goes through the
    limiter, one at a time, in the order given. *)
Fixpoint run_pool (w : world) (ids : list Z) (order : list nat) : M unit :=
  match order with
  | [] => mret tt
  | k :: order' =>
      _ ← match ids !! k with
          | Some id => _ ← get_article_by_id w k id; mret tt
          | None => mret tt
          end;
      run_pool w ids order'
  end.

(** The request of line 47 and the slice taken from its answer. *)
Definition resolve_ids (w : world) (mode : string) (n start : Z) : M (res (list Z)) :=
  _ ← requests_get (STORIES mode);
  mret (match listing w mode with
        | Raised => Exn RequestException
        | Json l => Val (py_slice l (start - 1) (start - 1 + n))
        end).

Definition get_stories (w : world) (s : schedule)
    (mode : string) (n max_workers start : Z) : M (res report) :=
  _ ← rate_limit;
  r ← resolve_ids w mode n start;
  match r with
  | Exn e => mret (Exn e)
  | Val ids =>
      let max_workers := Z.max max_workers n in
      if max_workers <=? 0 then mret (Exn ValueError)
      else
        _ ← run_pool w ids (admitted s);
        mret (collect w ids start (completed s))
  end.

(** ** [main] *)

Inductive mode := top | new | best | ask | show | job.

Definition mode_name (m : mode) : string :=
  match m with
  | top => "top" | new => "new" | best => "best"
  | ask => "ask" | show => "show" | job => "job"
  end.

Definition MODE_LIMITS (m : mode) : Z :=
  match m with
  | top => 500 | new => 500 | best => 500
  | ask => 200 | show => 200 | job => 200
  end.

(** How the process ends: [parser.error] prints the usage and the message
    and exits with status 2; an exception nobody catches ends the process
    with status 1; otherwise the table is printed. *)
Inductive outcome :=
| UsageError (message : string)
| Uncaught (e : exn)
| Printed (r : report).

Definition exit_status (o : outcome) : Z :=
  match o with
  | UsageError _ => 2
  | Uncaught _ => 1
  | Printed _ => 0
  end.

Definition main (w : world) (s : schedule) (m : mode) (start num : Z) : M outcome :=
  if start <? 1 then
    mret (UsageError "--start/-s must be at least 1.")
  else if num <? 1 then
    mret (UsageError "--num/-n must be at least 1.")
  else if MODE_LIMITS m <? start + num - 1 then
    mret (UsageError ("The sum of start and num minus 1 (index of furthest post) must not exceed "
                      +:+ pretty (MODE_LIMITS m) +:+ ", the Hacker News API limit."))
  else
    r ← get_stories w s (mode_name m) num 10 start;
    mret (match r with
          | Val rep => Printed rep
          | Exn e => Uncaught e
          end).

(** The machine before the program starts. *)
Definition boot : machine := Machine 0 0 [].

(** ** The run when an item need not be an object *)

(** What [.json()] gave for an item: a JSON object, or a JSON value that is
    not an object ([null], for one) and so has no [get]. *)
Inductive body :=
| Object (fields : story)
| NotObject.

(** The world as above, the item endpoint answering with any JSON value. *)
Record api := Api {
  api_clock : nat → Q;
  api_listing : string → response (list Z);
  api_item : nat → Z → response body
}.

Definition fields_of (b : body) : story :=
  match b with
  | Object fields => fields
  | NotObject => ∅
  end.

(** The same world with every body read as an object. *)
Definition objects (a : api) : world :=
  World (api_clock a) (api_listing a)
        (λ task id, match api_item a task id with
                    | Raised => Raised
                    | Json b => Json (fields_of b)
                    end).

Module AnyJson.

(** [get_article_by_id], decorated with [@rate_limit(10)]. *)
Definition get_article_by_id (a : api) (task : nat) (id : Z) : M (response body) :=
  wrapper (objects a) 10 (_ ← requests_get (ITEM id); mret (api_item a task id)).

(** The fetch tasks as the pool runs them, in the order in which they get
    through the limiter, and what each one leaves as the result of its
    future. *)
Fixpoint run_pool (a : api) (ids : list Z) (order : list nat)
    : M (gmap nat (response body)) :=
  match order with
  | [] => mret ∅
  | k :: order' =>
      match ids !! k with
      | Some id =>
          result ← get_article_by_id a k id;
          results ← run_pool a ids order';
          mret (<[k := result]> results)
      | None => run_pool a ids order'
      end
  end.

(** One round of the loop over [as_completed(future_to_id)]:
    [future.result()] is read inside the [try], [story.get] is called in the
    [else] branch, outside of it. *)
Definition on_completed (results : gmap nat (response body))
    (future_to_id : gmap nat Z) (id_to_index : gmap Z Z)
    (id_to_post : gmap Z row) (future : nat) : res (gmap Z row) :=
  id ← subscript future_to_id future;
  index ← subscript id_to_index id;
  result ← subscript results future;
  match result with
  | Raised => mret (<[id := placeholder_row index]> id_to_post)
  | Json NotObject => Exn AttributeError
  | Json (Object story) => mret (<[id := story_row id index story]> id_to_post)
  end.

Definition collect (results : gmap nat (response body))
    (ids : list Z) (start : Z) (order : list nat) : res report :=
  let total_posts := length ids in
  let id_to_index := id_to_index ids start in
  let future_to_id := future_to_id ids in
  id_to_post ← for_each (on_completed results future_to_id id_to_index) ∅ order;
  rows ← mapM (subscript id_to_post) ids;
  mret (Report total_posts (length order) rows).

Definition resolve_ids (a : api) (mode : string) (n start : Z) : M (res (list Z)) :=
  _ ← requests_get (STORIES mode);
  mret (match api_listing a mode with
        | Raised => Exn RequestException
        | Json l => Val (py_slice l (start - 1) (start - 1 + n))
        end).

Definition get_stories (a : api) (s : schedule)
    (mode : string) (n max_workers start : Z) : M (res report) :=
  _ ← rate_limit;
  r ← resolve_ids a mode n start;
  match r with
  | Exn e => mret (Exn e)
  | Val ids =>
      let max_workers := Z.max max_workers n in
      if max_workers <=? 0 then mret (Exn ValueError)
      else
        results ← run_pool a ids (admitted s);
        mret (collect results ids start (completed s))
  end.

Definition main (a : api) (s : schedule) (m : mode) (start num : Z) : M outcome :=
  if start <? 1 then
    mret (UsageError "--start/-s must be at least 1.")
  else if num <? 1 then
    mret (UsageError "--num/-n must be at least 1.")
  else if MODE_LIMITS m <? start + num - 1 then
    mret (UsageError ("The sum of start and num minus 1 (index of furthest post) must not exceed "
                      +:+ pretty (MODE_LIMITS m) +:+ ", the Hacker News API limit."))
  else
    r ← get_stories a s (mode_name m) num 10 start;
    mret (match r with
          | Val rep => Printed rep
          | Exn e => Uncaught e
          end).

End AnyJson.

(** ** Notions used in the statements *)

(** [p] is the last position of [id] in [ids]. *)
Definition last_at (ids : list Z) (p : nat) (id : Z) : Prop :=
  ids !! p = Some id ∧ ∀ q, ids !! q = Some id → (q ≤ p)%nat.

(** What [id_to_post] holds once the futures in [done] have been handled:
    only rows made for ids of the window, each from the result of one of
    the handled tasks for that id and with the rank of the rank
    dictionary; and a row for every handled task's id. *)
Definition posted (w : world) (ids : list Z) (start : Z)
    (done : list nat) (id_to_post : gmap Z row) : Prop :=
  (∀ id r, id_to_post !! id = Some r →
     ∃ k index, k ∈ done ∧ ids !! k = Some id ∧
                id_to_index ids start !! id = Some index ∧
                r = post_row id index (item w k id)) ∧
  (∀ k id, k ∈ done → ids !! k = Some id → is_Some (id_to_post !! id)).

(** The rows of a table filled from some final [id_to_post]: the row at
    each position is the one stored under the id at that position, and a
    stored row was made from the result of one task for its id, with the
    rank of the id's last position. *)
Definition table_of (w : world) (ids : list Z) (start : Z) (rows : list row) : Prop :=
  ∃ id_to_post : gmap Z row,
    Forall2 (λ id r, id_to_post !! id = Some r) ids rows ∧
    ∀ id r, id_to_post !! id = Some r →
      ∃ k p, ids !! k = Some id ∧ last_at ids p id ∧
             r = post_row id (start + Z.of_nat p) (item w k id).

(** The urls requested in a log, oldest first. *)
Definition requested (l : list event) : list string :=
  omap (λ e, match e with Get url => Some url | Sleep _ => None end) l.

(** The ids of the tasks of [order], in that order. *)
Definition ids_of (ids : list Z) (order : list nat) : list Z :=
  omap (λ k, ids !! k) order.

(** The sleep of one passage through the limiter, if any. *)
Definition gate_sleep (w : world) (calls_per_sec : Z) (σ : machine) : list event :=
  let wait := (interval calls_per_sec - (clock w (clock_reads σ) - last_time σ))%Q in
  if negb (Qle_bool wait 0) then [Sleep wait] else [].

(** ** Sample runs *)

(** A clock that starts at some epoch and advances by a hundredth of a
    second from one reading to the next. *)
Definition sample_clock (k : nat) : Q := (1700000000 + inject_Z (Z.of_nat k) / 100)%Q.

(** An item endpoint that fails for story 102, knows no url for story 103
    and gives an empty title for story 104. *)
Definition sample_item (id : Z) : response story :=
  if decide (id = 102) then Raised
  else if decide (id = 103) then Json {["title" := "Ask HN: what now?"]}
  else if decide (id = 104) then Json (<["title" := ""]> {["url" := "https://example.org/104"]})
  else Json (<["title" := "A story"]> {["url" := "https://example.org/story"]}).

(** The world in which every mode lists [l]. *)
Definition sample_world (l : list Z) : world :=
  World sample_clock (λ _, Json l) (λ _, sample_item).

(** The string a cell was built from, whatever its style (what the
    terminal then shows of it is up to [rich]). *)
Definition cell_text (c : cell) : string :=
  match c with
  | Plain s => s
  | Text s _ => s
  end.



(** The body that task [k] gets has no [get]. *)
Definition no_get (a : api) (ids : list Z) (k : nat) : bool :=
  match ids !! k with
  | Some id =>
      match api_item a k id with
      | Json NotObject => true
      | _ => false
      end
  | None => false
  end.


(** The sleeps of a log, oldest first. *)
Definition slept (l : list event) : list Q :=
  omap (λ e, match e with Sleep d => Some d | Get _ => None end) l.

(** A clock whose readings fall, by turns, 6 and 4 hundredths of a second
    apart. *)
Definition steady_clock (k : nat) : Q :=
  (1700000000 + inject_Z (Z.of_nat k) * (1 # 20)
   + (if Nat.odd k then 1 # 100 else 0))%Q.

(** The item endpoint of [sample_item], story 105 answering with [null]. *)
Definition sample_body (id : Z) : response body :=
  if decide (id = 105) then Json NotObject
  else match sample_item id with
       | Raised => Raised
       | Json fields => Json (Object fields)
       end.

(** The world in which every mode lists [l] and items are answered by
    [sample_body]. *)
Definition sample_api (l : list Z) : api :=
  Api sample_clock (λ _, Json l) (λ _, sample_body).

(** The world that lists [107, 108, 107], in which the fetch of the first
    task raises and the others succeed. *)
Definition twice_api : api :=
  Api sample_clock (λ _, Json [107; 108; 107])
      (λ task id, if decide (task = 0%nat) then Raised else sample_body id).

(** ** Subscripts *)

Lemma subscript_Some `{Lookup K V D} (d : D) (k : K) (v : V) :
  d !! k = Some v → subscript d k = Val v.
Proof. intros Hk. unfold subscript. by rewrite Hk. Qed.

(** ** Slices *)

Section slices.
Context {A : Type}.
Implicit Types l : list A.

(** With both bounds non-negative the slice is the usual take-after-drop;
    a list too short simply gives less. *)
Lemma py_slice_nonneg l a n :
  0 ≤ a → 0 ≤ n →
  py_slice l a (a + n) = take (Z.to_nat n) (drop (Z.to_nat a) l).
Proof.
  intros Ha Hn. unfold py_slice, slice_index.
  destruct (Z.ltb_spec a 0) as [|_]; [lia|].
  destruct (Z.ltb_spec (a + n) 0) as [|_]; [lia|].
  destruct (Z.le_gt_cases (Z.of_nat (length l)) a) as [Hlen|Hlen].
  - rewrite Z.min_r by lia.
    rewrite !drop_ge by lia. by rewrite !take_nil.
  - rewrite (Z.min_l a) by lia.
    destruct (Z.le_gt_cases (a + n) (Z.of_nat (length l))) as [Hhi|Hhi].
    + rewrite Z.min_l by lia. f_equal. lia.
    + rewrite Z.min_r by lia.
      rewrite !take_ge; [done | |]; rewrite length_drop; lia.
Qed.

Lemma py_slice_lookup l a n (p : nat) :
  0 ≤ a → 0 ≤ n →
  py_slice l a (a + n) !! p =
    if decide (p < Z.to_nat n)%nat then l !! (Z.to_nat a + p)%nat else None.
Proof.
  intros Ha Hn. rewrite py_slice_nonneg by done.
  case_decide.
  - rewrite lookup_take_lt by done. by rewrite lookup_drop.
  - rewrite lookup_take_ge; [done | lia].
Qed.
End slices.

(** ** The rank dictionary *)

Section ranks.
Implicit Types ids : list Z.

Lemma enumerate_snoc {A} (l : list A) (x : A) (start : Z) :
  enumerate (l ++ [x]) start = enumerate l start ++ [(start + Z.of_nat (length l), x)].
Proof.
  unfold enumerate. rewrite imap_app. simpl.
  by rewrite Nat.add_0_r.
Qed.

Lemma id_to_index_snoc ids id start :
  id_to_index (ids ++ [id]) start =
    <[id := start + Z.of_nat (length ids)]> (id_to_index ids start).
Proof.
  unfold id_to_index. by rewrite enumerate_snoc, foldl_snoc.
Qed.

Lemma last_at_snoc_eq ids id : last_at (ids ++ [id]) (length ids) id.
Proof.
  split.
  - by rewrite lookup_app_r, Nat.sub_diag.
  - intros q Hq. apply lookup_lt_Some in Hq.
    rewrite length_app in Hq. simpl in Hq. lia.
Qed.

Lemma last_at_snoc_ne ids id id' p :
  id ≠ id' → last_at (ids ++ [id']) p id ↔ last_at ids p id.
Proof.
  intros Hne. unfold last_at. split; intros [Hp Hlast].
  - assert (p < length ids)%nat as Hlt.
    { destruct (decide (p < length ids)%nat) as [|Hge]; [done|].
      rewrite lookup_app_r in Hp by lia.
      apply list_lookup_singleton_Some in Hp as [_ ?]. congruence. }
    rewrite lookup_app_l in Hp by done. split; [done|].
    intros q Hq. apply Hlast. rewrite lookup_app_l; [done|].
    by eapply lookup_lt_Some.
  - split.
    + rewrite lookup_app_l; [done|]. by eapply lookup_lt_Some.
    + intros q Hq. apply lookup_app_Some in Hq as [Hq|[_ Hq]]; [by apply Hlast|].
      apply list_lookup_singleton_Some in Hq as [_ ?]. congruence.
Qed.

Lemma last_at_unique ids p q id : last_at ids p id → last_at ids q id → p = q.
Proof.
  intros [Hp Hpl] [Hq Hql]. apply Hpl in Hq. apply Hql in Hp. lia.
Qed.

(** The dictionary holds, for each id of the window, the rank of its
    last position, and nothing else. *)
Lemma id_to_index_spec ids start id :
  match id_to_index ids start !! id with
  | Some index => ∃ p, last_at ids p id ∧ index = start + Z.of_nat p
  | None => id ∉ ids
  end.
Proof.
  induction ids as [|id' ids IH] using rev_ind.
  - unfold id_to_index. simpl. rewrite lookup_empty. apply not_elem_of_nil.
  - rewrite id_to_index_snoc.
    destruct (decide (id' = id)) as [->|Hne].
    + rewrite lookup_insert_eq. eauto using last_at_snoc_eq.
    + rewrite lookup_insert_ne by done.
      destruct (id_to_index ids start !! id) as [index|].
      * destruct IH as (p & Hp & ->). exists p. split; [|done].
        by apply last_at_snoc_ne.
      * rewrite elem_of_app, list_elem_of_singleton. intros [?|?]; [done | congruence].
Qed.

Lemma id_to_index_elem ids start id :
  id ∈ ids → ∃ p, last_at ids p id ∧ id_to_index ids start !! id = Some (start + Z.of_nat p).
Proof.
  intros Hin. pose proof (id_to_index_spec ids start id) as Hspec.
  destruct (id_to_index ids start !! id) as [index|]; [|done].
  destruct Hspec as (p & Hp & ->). eauto.
Qed.

(** Where no id repeats, every position is a last position. *)
Lemma NoDup_last_at ids p id : NoDup ids → ids !! p = Some id → last_at ids p id.
Proof.
  intros Hnd Hp. split; [done|].
  intros q Hq. by rewrite (NoDup_lookup _ _ _ _ Hnd Hq Hp).
Qed.
End ranks.

(** ** The collecting loop *)

Section collecting.
Variables (w : world) (ids : list Z) (start : Z).

Local Abbreviation posted := (posted w ids start).
Local Abbreviation table_of := (table_of w ids start).

Lemma posted_empty : posted [] ∅.
Proof.
  split.
  - intros id r Hr. by rewrite lookup_empty in Hr.
  - intros k id Hk. by apply not_elem_of_nil in Hk.
Qed.

Lemma on_completed_Val done id_to_post k id :
  posted done id_to_post → ids !! k = Some id →
  ∃ id_to_post', on_completed w (future_to_id ids) (id_to_index ids start) id_to_post k
                   = Val id_to_post' ∧
                 posted (done ++ [k]) id_to_post'.
Proof.
  intros [Hrows Hdone] Hk.
  destruct (id_to_index_elem ids start id) as (p & _ & Hindex).
  { by eapply list_elem_of_lookup_2. }
  unfold on_completed, subscript, future_to_id.
  rewrite lookup_map_seq_0, Hk. simpl. rewrite Hindex. simpl.
  eexists. split; [reflexivity|]. split.
  - intros id' r Hr. destruct (decide (id = id')) as [<-|Hne].
    + rewrite lookup_insert_eq in Hr. injection Hr as <-.
      exists k, (start + Z.of_nat p). rewrite elem_of_app, list_elem_of_singleton. auto.
    + rewrite lookup_insert_ne in Hr by done.
      destruct (Hrows id' r Hr) as (k' & index & Hk' & ?).
      exists k', index. rewrite elem_of_app. auto.
  - intros k' id' Hk' Hid'. destruct (decide (id = id')) as [<-|Hne].
    + rewrite lookup_insert_eq. eauto.
    + rewrite lookup_insert_ne by done.
      apply elem_of_app in Hk' as [Hk'|Hk']; [by eapply Hdone|].
      apply list_elem_of_singleton in Hk' as ->. congruence.
Qed.

Lemma for_each_on_completed order : ∀ done id_to_post,
  posted done id_to_post →
  Forall (λ k, k < length ids)%nat order →
  ∃ id_to_post', for_each (on_completed w (future_to_id ids) (id_to_index ids start))
                            id_to_post order = Val id_to_post' ∧
                 posted (done ++ order) id_to_post'.
Proof.
  induction order as [|k order IH]; intros done id_to_post Hposted Horder.
  - exists id_to_post. by rewrite app_nil_r.
  - apply Forall_cons in Horder as [Hk Horder].
    apply lookup_lt_is_Some in Hk as [id Hk].
    destruct (on_completed_Val _ _ _ _ Hposted Hk) as (m & Hm & Hposted').
    destruct (IH _ _ Hposted' Horder) as (m' & Hm' & Hposted'').
    exists m'. simpl. rewrite Hm. simpl. split; [done|].
    by rewrite <- app_assoc in Hposted''.
Qed.

(** The loop that fills the table finds a row for each id that has one. *)
Lemma fill_table (id_to_post : gmap Z row) (l : list Z) :
  (∀ id, id ∈ l → is_Some (id_to_post !! id)) →
  ∃ rows, mapM (subscript id_to_post) l = Val rows ∧
          Forall2 (λ id r, id_to_post !! id = Some r) l rows.
Proof.
  induction l as [|id l IH]; intros Hall.
  - exists []. split; [done | constructor].
  - destruct (Hall id) as [r Hr]; [apply list_elem_of_here|].
    destruct IH as (rows & Hrows & Hforall).
    { intros id' Hin. apply Hall. by apply list_elem_of_further. }
    exists (r :: rows). split; [|by constructor].
    simpl. rewrite (subscript_Some _ _ _ Hr). simpl. by rewrite Hrows.
Qed.

(** When every task completes exactly once, the collecting loop ends
    without a [KeyError], the progress bar has advanced once per id, and
    the table has one row per position of the window. *)
Lemma collect_Val (order : list nat) :
  order ≡ₚ seq 0 (length ids) →
  ∃ rows, collect w ids start order = Val (Report (length ids) (length ids) rows) ∧
          table_of rows.
Proof.
  intros Hperm.
  destruct (for_each_on_completed order [] ∅ posted_empty) as (m & Hm & Hrows & Hdone).
  { rewrite Hperm. apply Forall_seq. lia. }
  destruct (fill_table m ids) as (rows & Hfill & Hforall).
  { intros id Hin. apply list_elem_of_lookup_1 in Hin as [k Hk].
    apply (Hdone k); [|done]. simpl. rewrite Hperm.
    apply elem_of_seq. apply lookup_lt_Some in Hk. lia. }
  exists rows. split.
  - unfold collect. rewrite Hm. simpl. rewrite Hfill. simpl.
    by rewrite Hperm, length_seq.
  - exists m. split; [done|].
    intros id r Hr. destruct (Hrows id r Hr) as (k & index & _ & Hk & Hindex & ->).
    destruct (id_to_index_elem ids start id) as (p & Hp & Hindex').
    { by eapply list_elem_of_lookup_2. }
    exists k, p. split_and!; [done..|]. congruence.
Qed.

Lemma table_of_length rows : table_of rows → length rows = length ids.
Proof. intros (m & Hforall & _). symmetry. by eapply Forall2_length. Qed.

(** All the rows of one id are the same row. *)
Lemma table_of_lookup rows id p :
  table_of rows → last_at ids p id →
  ∃ k, ids !! k = Some id ∧
       ∀ q, ids !! q = Some id →
            rows !! q = Some (post_row id (start + Z.of_nat p) (item w k id)).
Proof.
  intros (m & Hforall & Hm) Hp.
  destruct (Forall2_lookup_l _ _ _ _ _ Hforall (proj1 Hp)) as (r & _ & Hr).
  destruct (Hm id r Hr) as (k & p' & Hk & Hp' & ->).
  rewrite (last_at_unique _ _ _ _ Hp' Hp) in Hr.
  exists k. split; [done|]. intros q Hq.
  destruct (Forall2_lookup_l _ _ _ _ _ Hforall Hq) as (r' & -> & Hr').
  congruence.
Qed.

(** A row of the table shows the rank of the last position of some id of
    the window. *)
Lemma table_of_row_no rows r :
  table_of rows → r ∈ rows →
  ∃ id p, last_at ids p id ∧ row_no r = pretty (start + Z.of_nat p).
Proof.
  intros (m & Hforall & Hm) Hin.
  apply list_elem_of_lookup_1 in Hin as [q Hq].
  destruct (Forall2_lookup_r _ _ _ _ _ Hforall Hq) as (id & _ & Hr).
  destruct (Hm id r Hr) as (k & p & _ & Hp & ->).
  exists id, p. split; [done|]. by destruct (item w k id).
Qed.
End collecting.

(** ** What a run does to the machine *)

Section effects.
Variable w : world.

Lemma requested_app l1 l2 : requested (l1 ++ l2) = requested l1 ++ requested l2.
Proof. apply omap_app. Qed.

Lemma requested_gate_sleep calls_per_sec σ : requested (gate_sleep w calls_per_sec σ) = [].
Proof. unfold gate_sleep. by destruct (negb _). Qed.

(** Line 47 touches neither the limiter nor the clock. *)
Lemma resolve_ids_run mode n start σ :
  resolve_ids w mode n start σ =
    (match listing w mode with
     | Raised => Exn RequestException
     | Json l => Val (py_slice l (start - 1) (start - 1 + n))
     end,
     Machine (last_time σ) (clock_reads σ) (log σ ++ [Get (STORIES mode)])).
Proof. reflexivity. Qed.

(** One fetch: through the limiter, then the request. *)
Lemma get_article_by_id_run k id σ :
  get_article_by_id w k id σ =
    (item w k id,
     Machine (clock w (S (clock_reads σ))) (S (S (clock_reads σ)))
             (log σ ++ gate_sleep w 10 σ ++ [Get (ITEM id)])).
Proof.
  unfold get_article_by_id, wrapper, gate_sleep, mbind, M_bind, time_time.
  simpl. destruct (negb _); simpl.
  - by rewrite <- app_assoc.
  - done.
Qed.

Lemma run_pool_cons ids k order σ :
  run_pool w ids (k :: order) σ =
    run_pool w ids order
      (match ids !! k with
       | Some id => (get_article_by_id w k id σ).2
       | None => σ
       end).
Proof.
  simpl. unfold mbind, M_bind.
  destruct (ids !! k) as [id|]; [|done].
  by destruct (get_article_by_id w k id σ).
Qed.

Lemma ids_of_cons ids k order :
  ids_of ids (k :: order) =
    match ids !! k with
    | Some id => id :: ids_of ids order
    | None => ids_of ids order
    end.
Proof. reflexivity. Qed.

(** The pool reads the clock twice per fetch and requests the items in the
    order in which the tasks get through the limiter. *)
Lemma run_pool_run ids order : ∀ σ,
  clock_reads (run_pool w ids order σ).2 =
    (clock_reads σ + 2 * length (ids_of ids order))%nat ∧
  requested (log (run_pool w ids order σ).2) =
    requested (log σ) ++ (ITEM <$> ids_of ids order).
Proof.
  induction order as [|k order IH]; intros σ.
  - simpl. split; [lia | by rewrite app_nil_r].
  - rewrite run_pool_cons, ids_of_cons.
    destruct (ids !! k) as [id|]; [|apply IH].
    destruct (IH (get_article_by_id w k id σ).2) as [-> ->].
    rewrite get_article_by_id_run. cbn [snd clock_reads log].
    rewrite length_cons, fmap_cons. split; [lia|].
    rewrite !requested_app, requested_gate_sleep. cbn [requested omap list_omap app].
    by rewrite <- app_assoc.
Qed.

Lemma ids_of_seq ids : ids_of ids (seq 0 (length ids)) = ids.
Proof.
  unfold ids_of.
  induction ids as [|id ids IH] using rev_ind; [done|].
  rewrite length_app, Nat.add_comm. cbn [length Nat.add].
  rewrite seq_S, omap_app. cbn [omap list_omap Nat.add].
  rewrite lookup_app_r, Nat.sub_diag by lia. cbn [lookup list_lookup].
  f_equal. rewrite <- IH at 2. apply list_omap_ext, Forall2_same_length_lookup_2; [done|].
  intros i k k' Hk Hk'. assert (k' = k) as -> by congruence.
  apply lookup_seq in Hk as [_ Hk]. apply lookup_seq in Hk' as [-> _].
  rewrite lookup_app_l; [done | lia].
Qed.

(** When every task is admitted exactly once, the ids asked for are those
    of the window, up to the order of admission. *)
Lemma ids_of_Permutation ids order :
  order ≡ₚ seq 0 (length ids) → ids_of ids order ≡ₚ ids.
Proof.
  intros Hperm. rewrite <- (ids_of_seq ids) at 2.
  unfold ids_of. by rewrite Hperm.
Qed.

Lemma get_stories_run s mode n max_workers start σ :
  get_stories w s mode n max_workers start σ =
    let σ1 := Machine 0 (clock_reads σ) (log σ ++ [Get (STORIES mode)]) in
    match listing w mode with
    | Raised => (Exn RequestException, σ1)
    | Json l =>
        let ids := py_slice l (start - 1) (start - 1 + n) in
        if Z.max max_workers n <=? 0 then (Exn ValueError, σ1)
        else (collect w ids start (completed s), (run_pool w ids (admitted s) σ1).2)
    end.
Proof.
  unfold get_stories, mbind, M_bind, rate_limit, set_last_time.
  rewrite resolve_ids_run. simpl.
  destruct (listing w mode) as [|l]; [done|].
  destruct (Z.max max_workers n <=? 0); [done|].
  by destruct (run_pool _ _ _ _) as [[] σ'].
Qed.

(** [main] with arguments that pass the three checks. *)
Lemma main_run s m start num σ :
  1 ≤ start → 1 ≤ num → start + num - 1 ≤ MODE_LIMITS m →
  main w s m start num σ =
    let σ1 := Machine 0 (clock_reads σ) (log σ ++ [Get (STORIES (mode_name m))]) in
    match listing w (mode_name m) with
    | Raised => (Uncaught RequestException, σ1)
    | Json l =>
        let ids := py_slice l (start - 1) (start - 1 + num) in
        (match collect w ids start (completed s) with
         | Val rep => Printed rep
         | Exn e => Uncaught e
         end,
         (run_pool w ids (admitted s) σ1).2)
    end.
Proof.
  intros Hstart Hnum Hlimit. unfold main.
  destruct (Z.ltb_spec start 1) as [|_]; [lia|].
  destruct (Z.ltb_spec num 1) as [|_]; [lia|].
  destruct (Z.ltb_spec (MODE_LIMITS m) (start + num - 1)) as [|_]; [lia|].
  unfold mbind at 1, M_bind at 1. rewrite get_stories_run. simpl.
  destruct (listing w (mode_name m)) as [|l]; [done|].
  destruct (Z.leb_spec (Z.max 10 num) 0) as [|_]; [lia|]. done.
Qed.

(** [main] with arguments that fail one of them. *)
Lemma main_usage s m start num σ :
  start < 1 ∨ num < 1 ∨ MODE_LIMITS m < start + num - 1 →
  ∃ message, main w s m start num σ = (UsageError message, σ).
Proof.
  intros Hbad. unfold main.
  destruct (Z.ltb_spec start 1); [by eexists|].
  destruct (Z.ltb_spec num 1); [by eexists|].
  destruct (Z.ltb_spec (MODE_LIMITS m) (start + num - 1)); [by eexists|].
  lia.
Qed.

(** A run whose arguments pass the checks and whose listing request
    succeeds prints its table, whatever the fetches do. *)
Lemma main_Printed s m start num l σ :
  1 ≤ start → 1 ≤ num → start + num - 1 ≤ MODE_LIMITS m →
  listing w (mode_name m) = Json l →
  let ids := py_slice l (start - 1) (start - 1 + num) in
  completed s ≡ₚ seq 0 (length ids) →
  ∃ rows, (main w s m start num σ).1 = Printed (Report (length ids) (length ids) rows) ∧
          table_of w ids start rows.
Proof.
  intros Hstart Hnum Hlimit Hl ids Hperm.
  destruct (collect_Val w ids start (completed s) Hperm) as (rows & Hrows & Htable).
  exists rows. split; [|done].
  rewrite main_run by done. simpl. rewrite Hl. simpl.
  fold ids. by rewrite Hrows.
Qed.
End effects.

(** ** The model on small inputs *)

Example py_slice_inside : py_slice [1; 2; 3; 4; 5] 1 3 = [2; 3].
Proof. reflexivity. Qed.

Example py_slice_past_the_end : py_slice [1; 2; 3; 4; 5] 3 9 = [4; 5].
Proof. reflexivity. Qed.

Example py_slice_from_the_end : py_slice [1; 2; 3; 4; 5] (-2) 7 = [4; 5].
Proof. reflexivity. Qed.

Example id_to_index_repeated :
  id_to_index [107; 108; 107] 1 !! 107 = Some 3 ∧
  id_to_index [107; 108; 107] 1 !! 108 = Some 2.
Proof. split; vm_compute; reflexivity. Qed.

(** The listing [101, 102, 103] with [num = 3] and [start = 1], the fetch
    of 102 failing. *)
Example run_with_one_failed_fetch :
  main (sample_world [101; 102; 103]) (Schedule [2; 0; 1]%nat [1; 2; 0]%nat) top 1 3 boot =
    (Printed (Report 3 3
       [Row "1" (Text "A story" "bold yellow") (Text "https://example.org/story" "blue underline");
        Row "2" (Plain "<RATE LIMITED>") (Plain "😭");
        Row "3" (Text "Ask HN: what now?" "bold yellow")
                (Text "https://news.ycombinator.com/item?id=103" "blue underline")]),
     Machine (sample_clock 5) 6
       [Get "https://hacker-news.firebaseio.com/v0/topstories.json";
        Get "https://hacker-news.firebaseio.com/v0/item/103.json";
        Sleep (interval 10 - (sample_clock 2 - sample_clock 1));
        Get "https://hacker-news.firebaseio.com/v0/item/101.json";
        Sleep (interval 10 - (sample_clock 4 - sample_clock 3));
        Get "https://hacker-news.firebaseio.com/v0/item/102.json"]).
Proof. vm_compute. reflexivity. Qed.

(** ** Tables of two runs *)

(** Two runs over the same window, in worlds whose item endpoints agree on
    every id of the window whichever task asks, fill the same table. *)
Lemma table_of_unique w w' ids start rows rows' :
  (∀ j k id, ids !! j = Some id → ids !! k = Some id → item w j id = item w' k id) →
  table_of w ids start rows → table_of w' ids start rows' → rows = rows'.
Proof.
  intros Hsame Hrows Hrows'.
  pose proof (table_of_length _ _ _ _ Hrows) as Hlen.
  pose proof (table_of_length _ _ _ _ Hrows') as Hlen'.
  apply list_eq. intros q.
  destruct (ids !! q) as [id|] eqn:Hq.
  - assert (id ∈ ids) as Hin by (by eapply list_elem_of_lookup_2).
    destruct (id_to_index_elem ids start id Hin) as (p & Hp & _).
    destruct (table_of_lookup _ _ _ _ _ p Hrows Hp) as (k & Hk & ->); [|done].
    destruct (table_of_lookup _ _ _ _ _ p Hrows' Hp) as (k' & Hk' & ->); [|done].
    by rewrite (Hsame k k' id).
  - apply lookup_ge_None in Hq.
    rewrite !lookup_ge_None_2; [done | lia | lia].
Qed.

(** ** The window and its rows *)

(** C1, as the code has it.  For arguments that pass the checks of [main],
    when the listing holds at least [start - 1 + num] ids and no id occurs
    twice in the window, the window is the [num] ids at positions
    [start - 1 .. start - 1 + num - 1] of the listing, exactly these ids are
    fetched, and the table has exactly [num] rows, the one at position [p]
    being the row of the [p]-th id under rank [start + p]. *)
Theorem full_window_rows w s m start num l σ :
  1 ≤ start → 1 ≤ num → start + num - 1 ≤ MODE_LIMITS m →
  listing w (mode_name m) = Json l →
  start - 1 + num ≤ Z.of_nat (length l) →
  let ids := py_slice l (start - 1) (start - 1 + num) in
  NoDup ids →
  admitted s ≡ₚ seq 0 (Z.to_nat num) →
  completed s ≡ₚ seq 0 (Z.to_nat num) →
  length ids = Z.to_nat num ∧
  (∀ p, (p < Z.to_nat num)%nat → ids !! p = l !! (Z.to_nat (start - 1) + p)%nat) ∧
  (∃ fetched, fetched ≡ₚ ids ∧
     requested (log (main w s m start num σ).2) =
       requested (log σ) ++ STORIES (mode_name m) :: (ITEM <$> fetched)) ∧
  ∃ rows,
    (main w s m start num σ).1 = Printed (Report (Z.to_nat num) (Z.to_nat num) rows) ∧
    length rows = Z.to_nat num ∧
    ∀ p id, ids !! p = Some id →
      rows !! p = Some (post_row id (start + Z.of_nat p) (item w p id)).
Proof.
  intros Hstart Hnum Hlimit Hl Hlong ids Hnodup Hadmitted Hcompleted.
  assert (ids = take (Z.to_nat num) (drop (Z.to_nat (start - 1)) l)) as Hids.
  { apply py_slice_nonneg; lia. }
  assert (length ids = Z.to_nat num) as Hlen.
  { rewrite Hids, length_take, length_drop. lia. }
  rewrite <- Hlen in Hadmitted, Hcompleted.
  split; [done|]. split; [|split].
  - intros p Hp. subst ids. rewrite py_slice_lookup by lia.
    by rewrite decide_True by done.
  - exists (ids_of ids (admitted s)). split; [by apply ids_of_Permutation|].
    rewrite main_run by done. simpl. rewrite Hl. simpl. fold ids.
    destruct (run_pool_run w ids (admitted s)
                (Machine 0 (clock_reads σ) (log σ ++ [Get (STORIES (mode_name m))])))
      as [_ ->].
    simpl. rewrite requested_app. simpl. by rewrite <- app_assoc.
  - destruct (main_Printed w s m start num l σ) as (rows & Hmain & Htable); [done..|].
    fold ids in Hmain, Htable. rewrite Hlen in Hmain.
    exists rows. split; [done|]. split.
    + by rewrite (table_of_length _ _ _ _ Htable).
    + intros p id Hp.
      destruct (table_of_lookup _ _ _ _ id p Htable) as (k & Hk & Hrows).
      { by apply NoDup_last_at. }
      assert (k = p) as -> by (by eapply NoDup_lookup).
      by apply Hrows.
Qed.

Lemma full_window_rows_witness :
  ∃ rows,
    (main (sample_world [101; 102; 103; 104; 105])
          (Schedule [1; 0; 2]%nat [2; 0; 1]%nat) top 2 3 boot).1
      = Printed (Report 3 3 rows) ∧
    rows !! 0%nat = Some (post_row 102 2 Raised).
Proof.
  destruct (full_window_rows (sample_world [101; 102; 103; 104; 105])
              (Schedule [1; 0; 2]%nat [2; 0; 1]%nat) top 2 3
              [101; 102; 103; 104; 105] boot)
    as (_ & _ & _ & rows & Hmain & _ & Hrows).
  - lia.
  - lia.
  - simpl. lia.
  - reflexivity.
  - simpl. lia.
  - apply (bool_decide_unpack _). vm_compute. exact I.
  - apply (bool_decide_unpack _). vm_compute. exact I.
  - apply (bool_decide_unpack _). vm_compute. exact I.
  - exists rows. split; [exact Hmain|]. apply (Hrows 0%nat 102). reflexivity.
Defined.

(** Where C1 fails as it is worded: a listing of two ids with [num = 3]
    gives a table of two rows, and a repeated id shows its last rank in
    each of its rows, so that the ranks shown are not ascending. *)
Lemma window_rows_counterexample :
  (1 ≤ 1 ∧ 1 ≤ 3 ∧ 1 + 3 - 1 ≤ MODE_LIMITS job) ∧
  (main (sample_world [101; 102]) (Schedule [0; 1]%nat [1; 0]%nat) job 1 3 boot).1
    = Printed (Report 2 2
        [Row "1" (Text "A story" "bold yellow") (Text "https://example.org/story" "blue underline");
         Row "2" (Plain "<RATE LIMITED>") (Plain "😭")]) ∧
  (main (sample_world [107; 108; 107]) (Schedule [0; 1; 2]%nat [0; 1; 2]%nat) top 1 3 boot).1
    = Printed (Report 3 3
        [Row "3" (Text "A story" "bold yellow") (Text "https://example.org/story" "blue underline");
         Row "2" (Text "A story" "bold yellow") (Text "https://example.org/story" "blue underline");
         Row "3" (Text "A story" "bold yellow") (Text "https://example.org/story" "blue underline")]).
Proof.
  split; [simpl; lia|]. split; vm_compute; reflexivity.
Qed.

(** ** The checks of [main] *)

(** C2.  Arguments with [start < 1], [num < 1] or
    [start + num - 1] above the limit of the mode (500 for top, new and
    best, 200 for ask, show and job) end the process with a usage error and
    a non-zero status, the machine untouched: no request was made.  All
    other arguments get past the checks and the listing is requested.  In
    particular [top, 1, 500] passes, and [top, 1, 501], [start = 0] and
    [num = 0] fail. *)
Theorem usage_error_before_any_request w s σ :
  (∀ m start num,
     start < 1 ∨ num < 1 ∨ start + num - 1 > MODE_LIMITS m →
     ∃ message, main w s m start num σ = (UsageError message, σ) ∧
                exit_status (UsageError message) ≠ 0) ∧
  (∀ m start num,
     1 ≤ start → 1 ≤ num → start + num - 1 ≤ MODE_LIMITS m →
     (∀ message, (main w s m start num σ).1 ≠ UsageError message) ∧
     ∃ later, requested (log (main w s m start num σ).2) =
                requested (log σ) ++ STORIES (mode_name m) :: later) ∧
  (MODE_LIMITS top = 500 ∧ MODE_LIMITS new = 500 ∧ MODE_LIMITS best = 500 ∧
   MODE_LIMITS ask = 200 ∧ MODE_LIMITS show = 200 ∧ MODE_LIMITS job = 200) ∧
  (∀ message, (main w s top 1 500 σ).1 ≠ UsageError message) ∧
  (∃ message, main w s top 1 501 σ = (UsageError message, σ)) ∧
  (∀ m num, ∃ message, main w s m 0 num σ = (UsageError message, σ)) ∧
  (∀ m start, ∃ message, main w s m start 0 σ = (UsageError message, σ)).
Proof.
  assert (∀ m start num,
            1 ≤ start → 1 ≤ num → start + num - 1 ≤ MODE_LIMITS m →
            (∀ message, (main w s m start num σ).1 ≠ UsageError message) ∧
            ∃ later, requested (log (main w s m start num σ).2) =
                       requested (log σ) ++ STORIES (mode_name m) :: later) as Hpass.
  { intros m start num Hstart Hnum Hlimit. rewrite main_run by done. simpl.
    destruct (listing w (mode_name m)) as [|l]; simpl.
    - split; [done|]. exists []. rewrite requested_app. done.
    - split; [by destruct (collect _ _ _ _)|].
      destruct (run_pool_run w (py_slice l (start - 1) (start - 1 + num)) (admitted s)
                  (Machine 0 (clock_reads σ) (log σ ++ [Get (STORIES (mode_name m))])))
        as [_ ->].
      simpl. rewrite requested_app. simpl. rewrite <- app_assoc. eauto. }
  split_and!.
  - intros m start num Hbad.
    destruct (main_usage w s m start num σ) as [message ->]; [lia|].
    exists message. done.
  - exact Hpass.
  - done.
  - done.
  - done.
  - done.
  - done.
  - done.
  - apply Hpass; simpl; lia.
  - apply main_usage. simpl. lia.
  - intros m num. apply main_usage. lia.
  - intros m start. apply main_usage. lia.
Qed.

Lemma usage_error_before_any_request_witness :
  ∃ message,
    main (sample_world [101; 102; 103]) (Schedule [0; 1; 2]%nat [0; 1; 2]%nat) ask 150 52 boot
      = (UsageError message, boot) ∧
    exit_status (UsageError message) ≠ 0.
Proof.
  apply (proj1 (usage_error_before_any_request (sample_world [101; 102; 103])
                  (Schedule [0; 1; 2]%nat [0; 1; 2]%nat) boot) ask 150 52).
  right. right. simpl. lia.
Defined.

(** ** Completion order *)

(** C4.  With the listing and the per-id answers of the item endpoint
    fixed, two runs with the same arguments end the same way and print the
    same rows in the same order, whatever their clocks, the order in which
    their tasks get through the limiter and the order in which their tasks
    complete. *)
Theorem completion_order_is_invisible
    (answers : Z → response story) (listed : string → response (list Z))
    clock1 clock2 s1 s2 m start num σ1 σ2 :
  (∀ l, listed (mode_name m) = Json l →
        let ids := py_slice l (start - 1) (start - 1 + num) in
        completed s1 ≡ₚ seq 0 (length ids) ∧ completed s2 ≡ₚ seq 0 (length ids)) →
  (main (World clock1 listed (λ _, answers)) s1 m start num σ1).1 =
  (main (World clock2 listed (λ _, answers)) s2 m start num σ2).1.
Proof.
  intros Hsched.
  set (w1 := World clock1 listed (λ _, answers)).
  set (w2 := World clock2 listed (λ _, answers)).
  destruct (decide (start < 1 ∨ num < 1 ∨ MODE_LIMITS m < start + num - 1)) as [Hbad|Hgood].
  - unfold main.
    destruct (Z.ltb_spec start 1); [done|].
    destruct (Z.ltb_spec num 1); [done|].
    destruct (Z.ltb_spec (MODE_LIMITS m) (start + num - 1)); [done|]. lia.
  - rewrite !main_run by lia. simpl.
    destruct (listed (mode_name m)) as [|l] eqn:Hl; [done|]. simpl.
    destruct (Hsched l eq_refl) as [Hperm1 Hperm2].
    destruct (collect_Val w1 _ start _ Hperm1) as (rows1 & -> & Htable1).
    destruct (collect_Val w2 _ start _ Hperm2) as (rows2 & -> & Htable2).
    do 2 f_equal. eapply table_of_unique; [|exact Htable1|exact Htable2]. done.
Qed.

Lemma completion_order_is_invisible_witness :
  (main (World sample_clock (λ _, Json [101; 102; 103]) (λ _, sample_item))
        (Schedule [0; 1; 2]%nat [0; 1; 2]%nat) top 1 3 boot).1 =
  (main (World (λ _, 0%Q) (λ _, Json [101; 102; 103]) (λ _, sample_item))
        (Schedule [2; 1; 0]%nat [1; 2; 0]%nat) top 1 3 boot).1.
Proof.
  apply (completion_order_is_invisible sample_item (λ _, Json [101; 102; 103])).
  intros l Hl. injection Hl as <-.
  split; apply (bool_decide_unpack _); vm_compute; exact I.
Defined.

(** ** Ranks *)

Lemma row_no_post_row id index result : row_no (post_row id index result) = pretty index.
Proof. by destruct result. Qed.

(** C5.  Every id of the window has a rank in [id_to_index], computed once
    from the window and [start]: its position in the window plus [start]
    (the position is the only one when no id repeats, and the last one
    otherwise).  Once all tasks have completed, in whatever order, that
    rank is the one shown in the rows of the id. *)
Theorem rank_is_position_plus_start w s m start num l σ :
  1 ≤ start → 1 ≤ num → start + num - 1 ≤ MODE_LIMITS m →
  listing w (mode_name m) = Json l →
  let ids := py_slice l (start - 1) (start - 1 + num) in
  completed s ≡ₚ seq 0 (length ids) →
  ∃ rows,
    (main w s m start num σ).1 = Printed (Report (length ids) (length ids) rows) ∧
    ∀ id, id ∈ ids →
      ∃ p : nat,
        ids !! p = Some id ∧
        (∀ q, ids !! q = Some id → (q ≤ p)%nat) ∧
        (NoDup ids → ∀ q, ids !! q = Some id → q = p) ∧
        id_to_index ids start !! id = Some (start + Z.of_nat p) ∧
        ∀ q, ids !! q = Some id → row_no <$> rows !! q = Some (pretty (start + Z.of_nat p)).
Proof.
  intros Hstart Hnum Hlimit Hl ids Hperm.
  destruct (main_Printed w s m start num l σ) as (rows & Hmain & Htable); [done..|].
  fold ids in Hmain, Htable.
  exists rows. split; [done|]. intros id Hin.
  destruct (id_to_index_elem ids start id Hin) as (p & Hp & Hindex).
  exists p. destruct Hp as [Hp Hlast]. split_and!; [done..| | done |].
  - intros Hnodup q Hq. by eapply NoDup_lookup.
  - intros q Hq.
    destruct (table_of_lookup _ _ _ _ id p Htable) as (k & _ & Hrows); [done|].
    rewrite (Hrows q Hq). simpl. by rewrite row_no_post_row.
Qed.

Lemma rank_is_position_plus_start_witness :
  ∃ rows,
    (main (sample_world [101; 102; 103; 104; 105])
          (Schedule [0; 1]%nat [1; 0]%nat) best 4 2 boot).1 = Printed (Report 2 2 rows) ∧
    row_no <$> rows !! 1%nat = Some "5".
Proof.
  destruct (rank_is_position_plus_start (sample_world [101; 102; 103; 104; 105])
              (Schedule [0; 1]%nat [1; 0]%nat) best 4 2 [101; 102; 103; 104; 105] boot)
    as (rows & Hmain & Hranks).
  - lia.
  - lia.
  - simpl. lia.
  - reflexivity.
  - apply (bool_decide_unpack _). vm_compute. exact I.
  - exists rows. split; [exact Hmain|].
    destruct (Hranks 105) as (p & Hp & _ & Hunique & _ & Hrow).
    + apply (bool_decide_unpack _). vm_compute. exact I.
    + assert (1%nat = p) as <-.
      { apply Hunique; [|reflexivity]. apply (bool_decide_unpack _). vm_compute. exact I. }
      apply (Hrow 1%nat). reflexivity.
Defined.

(** ** Short listings *)

(** C9.  When the listing holds fewer than [start - 1 + num] ids, the run
    raises nothing: the window is what the listing holds from position
    [start - 1] on (nothing at all when the listing stops before), and the
    total of the progress bar, the number of its steps and the number of
    rows are the length of that window, which is less than [num]. *)
Theorem short_listing_shortens_the_table w s m start num l σ :
  1 ≤ start → 1 ≤ num → start + num - 1 ≤ MODE_LIMITS m →
  listing w (mode_name m) = Json l →
  Z.of_nat (length l) < start - 1 + num →
  let ids := py_slice l (start - 1) (start - 1 + num) in
  completed s ≡ₚ seq 0 (length ids) →
  ids = drop (Z.to_nat (start - 1)) l ∧
  length ids = (length l - Z.to_nat (start - 1))%nat ∧
  (length ids < Z.to_nat num)%nat ∧
  ∃ rows,
    (main w s m start num σ).1 = Printed (Report (length ids) (length ids) rows) ∧
    exit_status (main w s m start num σ).1 = 0 ∧
    length rows = length ids.
Proof.
  intros Hstart Hnum Hlimit Hl Hshort ids Hperm.
  assert (ids = drop (Z.to_nat (start - 1)) l) as Hids.
  { subst ids. rewrite py_slice_nonneg by lia.
    apply take_ge. rewrite length_drop. lia. }
  assert (length ids = (length l - Z.to_nat (start - 1))%nat) as Hlen.
  { by rewrite Hids, length_drop. }
  split_and!; [done | done | lia |].
  destruct (main_Printed w s m start num l σ) as (rows & Hmain & Htable); [done..|].
  fold ids in Hmain, Htable.
  exists rows. split_and!; [done | by rewrite Hmain |].
  by apply table_of_length in Htable.
Qed.

Lemma short_listing_shortens_the_table_witness :
  ∃ rows,
    (main (sample_world [101; 102; 103]) (Schedule [0; 1]%nat [1; 0]%nat) job 2 50 boot).1
      = Printed (Report 2 2 rows) ∧
    length rows = 2%nat.
Proof.
  destruct (short_listing_shortens_the_table (sample_world [101; 102; 103])
              (Schedule [0; 1]%nat [1; 0]%nat) job 2 50 [101; 102; 103] boot)
    as (_ & _ & _ & rows & Hmain & _ & Hlen).
  - lia.
  - lia.
  - simpl. lia.
  - reflexivity.
  - simpl. lia.
  - apply (bool_decide_unpack _). vm_compute. exact I.
  - exists rows. split; [exact Hmain | exact Hlen].
Defined.

(** ** Repeated ids *)

(** C10.  The table has one row per position of the window, also when an
    id repeats.  All the rows of an id are the same row: it shows the rank
    of the id's last position and the result of one single fetch of the
    id.  The rank of any other position of the id is shown in no row. *)
Theorem repeated_id_shows_last_rank w s m start num l σ :
  1 ≤ start → 1 ≤ num → start + num - 1 ≤ MODE_LIMITS m →
  listing w (mode_name m) = Json l →
  let ids := py_slice l (start - 1) (start - 1 + num) in
  completed s ≡ₚ seq 0 (length ids) →
  ∃ rows,
    (main w s m start num σ).1 = Printed (Report (length ids) (length ids) rows) ∧
    length rows = length ids ∧
    ∀ id p, ids !! p = Some id → (∀ q, ids !! q = Some id → (q ≤ p)%nat) →
      ∃ k, ids !! k = Some id ∧
        (∀ q, ids !! q = Some id →
              rows !! q = Some (post_row id (start + Z.of_nat p) (item w k id))) ∧
        (∀ q, ids !! q = Some id → q ≠ p →
              ∀ r, r ∈ rows → row_no r ≠ pretty (start + Z.of_nat q)).
Proof.
  intros Hstart Hnum Hlimit Hl ids Hperm.
  destruct (main_Printed w s m start num l σ) as (rows & Hmain & Htable); [done..|].
  fold ids in Hmain, Htable.
  exists rows. split_and!; [done | by eapply table_of_length |].
  intros id p Hp Hlast.
  destruct (table_of_lookup _ _ _ _ id p Htable) as (k & Hk & Hrows); [done|].
  exists k. split_and!; [done..|].
  intros q Hq Hne r Hr Hno.
  destruct (table_of_row_no _ _ _ _ r Htable Hr) as (id' & p' & Hp' & Hno').
  rewrite Hno' in Hno. apply (inj pretty) in Hno.
  assert (p' = q) as -> by lia.
  destruct Hp' as [Hq' Hlast'].
  assert (id' = id) as -> by congruence.
  apply Hlast' in Hp. apply Hlast in Hq. lia.
Qed.

Lemma repeated_id_shows_last_rank_witness :
  ∃ rows,
    (main (sample_world [107; 108; 107]) (Schedule [0; 1; 2]%nat [2; 1; 0]%nat) top 1 3 boot).1
      = Printed (Report 3 3 rows) ∧
    row_no <$> rows !! 0%nat = Some "3" ∧
    rows !! 0%nat = rows !! 2%nat.
Proof.
  destruct (repeated_id_shows_last_rank (sample_world [107; 108; 107])
              (Schedule [0; 1; 2]%nat [2; 1; 0]%nat) top 1 3 [107; 108; 107] boot)
    as (rows & Hmain & _ & Hrows).
  - lia.
  - lia.
  - simpl. lia.
  - reflexivity.
  - apply (bool_decide_unpack _). vm_compute. exact I.
  - exists rows. split; [exact Hmain|].
    destruct (Hrows 107 2%nat) as (k & _ & Hsame & _).
    + reflexivity.
    + intros q Hq. apply lookup_lt_Some in Hq. simpl in Hq. lia.
    + rewrite (Hsame 0%nat), (Hsame 2%nat) by reflexivity.
      split; [|reflexivity]. destruct (item _ k 107); reflexivity.
Defined.

(** ** Missing fields *)

(** C6, as the code has it.  In the row of a story that was fetched, the
    title is the fixed default when the [title] field is absent or empty
    and the field's value otherwise; the url is the permalink built from
    the id when the [url] field is absent or empty and the field's value
    otherwise. *)
Theorem story_fields_displayed id index (s : story) :
  let r := post_row id index (Json s) in
  let permalink := "https://news.ycombinator.com/item?id=" +:+ pretty id in
  (s !! "title" = None ∨ s !! "title" = Some "" →
     row_title r = Text "<no title>" "bold yellow") ∧
  (∀ title, s !! "title" = Some title → title ≠ "" →
     row_title r = Text title "bold yellow") ∧
  (s !! "url" = None ∨ s !! "url" = Some "" →
     row_url r = Text permalink "blue underline") ∧
  (∀ url, s !! "url" = Some url → url ≠ "" →
     row_url r = Text url "blue underline").
Proof.
  simpl. unfold displayed_title, displayed_url, py_or. split_and!.
  - by intros [-> | ->].
  - intros title -> Hne. by rewrite decide_False.
  - by intros [-> | ->].
  - intros url -> Hne. by rewrite decide_False.
Qed.

Lemma story_fields_displayed_witness :
  row_title (post_row 103 7 (Json {["title" := "Ask HN: what now?"]}))
    = Text "Ask HN: what now?" "bold yellow" ∧
  row_url (post_row 103 7 (Json {["title" := "Ask HN: what now?"]}))
    = Text "https://news.ycombinator.com/item?id=103" "blue underline".
Proof.
  destruct (story_fields_displayed 103 7 {["title" := "Ask HN: what now?"]})
    as (_ & Htitle & Hurl & _).
  split.
  - apply Htitle; [reflexivity | discriminate].
  - apply Hurl. left. reflexivity.
Defined.

(** Where C6 fails as it is worded: story 104 comes with a [title] field,
    whose value is the empty string, and its row shows the default title,
    not the field's value. *)
Lemma present_field_counterexample :
  (∃ s : story, sample_item 104 = Json s ∧ s !! "title" = Some "") ∧
  (main (sample_world [104]) (Schedule [0]%nat [0]%nat) top 1 1 boot).1
    = Printed (Report 1 1
        [Row "1" (Text "<no title>" "bold yellow")
                 (Text "https://example.org/104" "blue underline")]) ∧
  Text "<no title>" "bold yellow" ≠ Text "" "bold yellow".
Proof.
  split; [|split].
  - eexists. split; reflexivity.
  - vm_compute. reflexivity.
  - discriminate.
Qed.

(** ** The limiter and the listing request *)

(** C8.  The listing request leaves the limiter's [last_time] and the
    clock alone and adds its one request to the log.  A fetch goes through
    the limiter: it reads the clock twice, leaves the second reading in
    [last_time], sleeps if it has to, and only then sends its request.  So
    when the pool starts, [last_time] still has the value [rate_limit] gave
    it, and over a whole run the clock is read twice per fetch although the
    run makes one request more than it has fetches. *)
Theorem listing_request_bypasses_limiter w s mode n max_workers start σ :
  (let σ' := (resolve_ids w mode n start σ).2 in
   last_time σ' = last_time σ ∧
   clock_reads σ' = clock_reads σ ∧
   log σ' = log σ ++ [Get (STORIES mode)]) ∧
  (∀ k id,
     let σ' := (get_article_by_id w k id σ).2 in
     last_time σ' = clock w (S (clock_reads σ)) ∧
     clock_reads σ' = S (S (clock_reads σ)) ∧
     log σ' = log σ ++ gate_sleep w 10 σ ++ [Get (ITEM id)]) ∧
  (∀ l, listing w mode = Json l → 0 < Z.max max_workers n →
     let ids := py_slice l (start - 1) (start - 1 + n) in
     let σ1 := Machine 0 (clock_reads σ) (log σ ++ [Get (STORIES mode)]) in
     let σ' := (get_stories w s mode n max_workers start σ).2 in
     σ' = (run_pool w ids (admitted s) σ1).2 ∧
     (admitted s ≡ₚ seq 0 (length ids) →
      clock_reads σ' = (clock_reads σ + 2 * length ids)%nat ∧
      length (requested (log σ')) = (length (requested (log σ)) + 1 + length ids)%nat)).
Proof.
  split_and!.
  - by rewrite resolve_ids_run.
  - intros k id. by rewrite get_article_by_id_run.
  - intros l Hl Hworkers ids σ1 σ'. subst σ'.
    rewrite get_stories_run. simpl. rewrite Hl. fold ids σ1.
    destruct (Z.leb_spec (Z.max max_workers n) 0) as [|_]; [lia|]. simpl.
    split; [done|]. intros Hperm.
    destruct (run_pool_run w ids (admitted s) σ1) as [-> ->].
    apply ids_of_Permutation in Hperm.
    rewrite length_app, length_fmap, Hperm. subst σ1. simpl.
    rewrite requested_app, length_app. simpl. lia.
Qed.

Lemma listing_request_bypasses_limiter_witness :
  clock_reads (get_stories (sample_world [101; 102; 103])
                 (Schedule [2; 0; 1]%nat [0; 1; 2]%nat) "top" 3 10 1 boot).2 = 6%nat ∧
  length (requested (log (get_stories (sample_world [101; 102; 103])
                 (Schedule [2; 0; 1]%nat [0; 1; 2]%nat) "top" 3 10 1 boot).2)) = 4%nat.
Proof.
  destruct (listing_request_bypasses_limiter (sample_world [101; 102; 103])
              (Schedule [2; 0; 1]%nat [0; 1; 2]%nat) "top" 3 10 1 boot)
    as (_ & _ & Hrun).
  destruct (Hrun [101; 102; 103]) as [_ Hcount].
  - reflexivity.
  - simpl. lia.
  - apply Hcount. apply (bool_decide_unpack _). vm_compute. exact I.
Defined.

(** * Further properties of the code *)

(** ** The window, for any arguments *)

(** X1.  Whatever [start] is, and for any [n] that is not negative, the
    window cut at line 47 is a run of consecutive ids of the listing and
    has at most [n] of them. *)
Theorem window_within_listing (l : list Z) (start n : Z) :
  0 ≤ n →
  let ids := py_slice l (start - 1) (start - 1 + n) in
  (length ids ≤ Z.to_nat n)%nat ∧
  ∃ before after, l = before ++ ids ++ after.
Proof.
  intros Hn ids. split.
  - subst ids. unfold py_slice. rewrite length_take.
    etransitivity; [apply Nat.le_min_l|].
    unfold slice_index.
    destruct (Z.ltb_spec (start - 1) 0), (Z.ltb_spec (start - 1 + n) 0); lia.
  - subst ids. unfold py_slice.
    assert (∀ j k, l = take j l ++ take k (drop j l) ++ drop k (drop j l)) as Hcut.
    { intros j k. by rewrite !take_drop. }
    eauto.
Qed.

Lemma window_within_listing_witness :
  (length (py_slice [101; 102; 103; 104; 105] (0 - 1) (0 - 1 + 2)) ≤ Z.to_nat 2)%nat.
Proof.
  apply (window_within_listing [101; 102; 103; 104; 105] 0 2). lia.
Defined.

(** A call of [get_stories] whose listing request succeeds, with a pool of
    at least one worker, returns its table. *)
Lemma get_stories_Val w s mode n max_workers start l σ :
  listing w mode = Json l →
  0 < Z.max max_workers n →
  let ids := py_slice l (start - 1) (start - 1 + n) in
  completed s ≡ₚ seq 0 (length ids) →
  ∃ rows, (get_stories w s mode n max_workers start σ).1 =
            Val (Report (length ids) (length ids) rows) ∧
          table_of w ids start rows.
Proof.
  intros Hl Hworkers ids Hperm.
  destruct (collect_Val w ids start (completed s) Hperm) as (rows & Hrows & Htable).
  exists rows. split; [|done].
  rewrite get_stories_run. simpl. rewrite Hl. fold ids.
  destruct (Z.leb_spec (Z.max max_workers n) 0) as [|_]; [lia|]. done.
Qed.

(** X2.  [get_stories] does not check [n] itself.  Called with
    [start ≥ 1] and an [n] so negative that the end of the slice,
    [start - 1 + n], is below zero, Python counts that end from the end of
    the listing: the window is the listing from position [start - 1] on
    without its last [-(start - 1 + n)] ids, and the table has
    [len(listing) + n] rows (none when that is negative). *)
Theorem negative_n_counts_from_the_end w s mode n max_workers start l σ :
  listing w mode = Json l →
  1 ≤ start → start - 1 + n < 0 → 0 < max_workers →
  let ids := py_slice l (start - 1) (start - 1 + n) in
  completed s ≡ₚ seq 0 (length ids) →
  ids = drop (Z.to_nat (start - 1))
             (take (Z.to_nat (Z.of_nat (length l) + (start - 1 + n))) l) ∧
  length ids = Z.to_nat (Z.of_nat (length l) + n) ∧
  ∃ rows, (get_stories w s mode n max_workers start σ).1 =
            Val (Report (length ids) (length ids) rows) ∧
          length rows = Z.to_nat (Z.of_nat (length l) + n).
Proof.
  intros Hl Hstart Hend Hworkers ids Hperm.
  assert (ids = drop (Z.to_nat (start - 1))
                     (take (Z.to_nat (Z.of_nat (length l) + (start - 1 + n))) l)) as Hids.
  { subst ids. unfold py_slice, slice_index.
    destruct (Z.ltb_spec (start - 1) 0) as [|_]; [lia|].
    destruct (Z.ltb_spec (start - 1 + n) 0) as [_|]; [|lia].
    destruct (Z.le_gt_cases (Z.of_nat (length l)) (start - 1)) as [Hlen|Hlen].
    - rewrite !drop_ge; [by rewrite take_nil | rewrite length_take; lia | lia].
    - rewrite Z.min_l by lia.
      destruct (Z.le_gt_cases 0 (Z.of_nat (length l) + (start - 1 + n))) as [Hhi|Hhi].
      + rewrite Z.max_l by lia. rewrite take_drop_commute.
        destruct (Z.le_gt_cases 0 (Z.of_nat (length l) + n)) as [Hfar|Hfar].
        * do 2 f_equal. lia.
        * rewrite !drop_ge; [done | rewrite length_take; lia..].
      + rewrite Z.max_r by lia.
        replace (Z.to_nat (0 - (start - 1))) with 0%nat by lia.
        replace (Z.to_nat (Z.of_nat (length l) + (start - 1 + n))) with 0%nat by lia.
        by rewrite !take_0, drop_nil. }
  assert (length ids = Z.to_nat (Z.of_nat (length l) + n)) as Hlen.
  { rewrite Hids, length_drop, length_take. lia. }
  split_and!; [done..|].
  destruct (get_stories_Val w s mode n max_workers start l σ) as (rows & Hrun & Htable);
    [done | lia | done |].
  fold ids in Hrun, Htable. exists rows. split; [done|].
  by rewrite (table_of_length _ _ _ _ Htable).
Qed.

Lemma negative_n_counts_from_the_end_witness :
  ∃ rows,
    (get_stories (sample_world [101; 102; 103; 104; 105])
       (Schedule [0; 1; 2]%nat [2; 1; 0]%nat) "top" (-2) 10 1 boot).1
      = Val (Report 3 3 rows) ∧
    length rows = 3%nat.
Proof.
  destruct (negative_n_counts_from_the_end (sample_world [101; 102; 103; 104; 105])
              (Schedule [0; 1; 2]%nat [2; 1; 0]%nat) "top" (-2) 10 1
              [101; 102; 103; 104; 105] boot)
    as (_ & _ & rows & Hrun & Hlen).
  - reflexivity.
  - lia.
  - lia.
  - lia.
  - apply (bool_decide_unpack _). vm_compute. exact I.
  - exists rows. split; [exact Hrun | exact Hlen].
Defined.

(** ** The ranks, for any window *)

(** X3.  The rank dictionary of line 50 has an entry for exactly the ids of
    the window; every rank in it lies between [start] and
    [start + len(ids) - 1]; and two different ids never get the same
    rank. *)
Theorem id_to_index_keys_and_ranks (ids : list Z) (start : Z) :
  (∀ id, is_Some (id_to_index ids start !! id) ↔ id ∈ ids) ∧
  (∀ id index, id_to_index ids start !! id = Some index →
               start ≤ index < start + Z.of_nat (length ids)) ∧
  (∀ id id' index, id_to_index ids start !! id = Some index →
                   id_to_index ids start !! id' = Some index → id = id').
Proof.
  split_and!.
  - intros id. split.
    + intros [index Hindex]. pose proof (id_to_index_spec ids start id) as Hspec.
      rewrite Hindex in Hspec. destruct Hspec as (p & [Hp _] & _).
      by eapply list_elem_of_lookup_2.
    + intros Hin. destruct (id_to_index_elem ids start id Hin) as (p & _ & ->). eauto.
  - intros id index Hindex. pose proof (id_to_index_spec ids start id) as Hspec.
    rewrite Hindex in Hspec. destruct Hspec as (p & [Hp _] & ->).
    apply lookup_lt_Some in Hp. lia.
  - intros id id' index Hid Hid'.
    pose proof (id_to_index_spec ids start id) as Hspec.
    pose proof (id_to_index_spec ids start id') as Hspec'.
    rewrite Hid in Hspec. rewrite Hid' in Hspec'.
    destruct Hspec as (p & [Hp _] & ->). destruct Hspec' as (p' & [Hp' _] & Heq).
    assert (p' = p) as -> by lia. congruence.
Qed.

Lemma id_to_index_keys_and_ranks_witness :
  1 ≤ 3 < 1 + Z.of_nat (length [107; 108; 107]).
Proof.
  apply (proj1 (proj2 (id_to_index_keys_and_ranks [107; 108; 107] 1)) 107 3).
  vm_compute. reflexivity.
Defined.

(** X4.  In the table of a run of [main], every row number is a rank
    between [start] and [start + num - 1], hence within the limit of the
    mode, and two rows that show the same number are rows of the same
    id. *)
Theorem row_numbers_within_limit w s m start num l σ :
  1 ≤ start → 1 ≤ num → start + num - 1 ≤ MODE_LIMITS m →
  listing w (mode_name m) = Json l →
  let ids := py_slice l (start - 1) (start - 1 + num) in
  completed s ≡ₚ seq 0 (length ids) →
  ∃ rows,
    (main w s m start num σ).1 = Printed (Report (length ids) (length ids) rows) ∧
    (∀ r, r ∈ rows →
       ∃ rank, row_no r = pretty rank ∧
               start ≤ rank ≤ start + num - 1 ∧ rank ≤ MODE_LIMITS m) ∧
    (∀ p q id id' r r',
       ids !! p = Some id → ids !! q = Some id' →
       rows !! p = Some r → rows !! q = Some r' →
       row_no r = row_no r' → id = id').
Proof.
  intros Hstart Hnum Hlimit Hl ids Hperm.
  destruct (main_Printed w s m start num l σ) as (rows & Hmain & Htable); [done..|].
  fold ids in Hmain, Htable.
  assert (length ids ≤ Z.to_nat num)%nat as Hlen.
  { subst ids. rewrite py_slice_nonneg by lia. rewrite length_take. lia. }
  assert (∀ p id r, ids !! p = Some id → rows !! p = Some r →
            ∃ p', last_at ids p' id ∧ row_no r = pretty (start + Z.of_nat p')) as Hrow.
  { intros p id r Hp Hr.
    destruct (id_to_index_elem ids start id) as (p' & Hp' & _).
    { by eapply list_elem_of_lookup_2. }
    destruct (table_of_lookup _ _ _ _ id p' Htable Hp') as (k & _ & Hrows).
    rewrite (Hrows p Hp) in Hr. injection Hr as <-.
    exists p'. split; [done|]. apply row_no_post_row. }
  exists rows. split_and!; [done| |].
  - intros r Hr.
    destruct (table_of_row_no _ _ _ _ r Htable Hr) as (id & p & [Hp _] & Hno).
    apply lookup_lt_Some in Hp.
    exists (start + Z.of_nat p). split; [done|]. lia.
  - intros p q id id' r r' Hp Hq Hr Hr' Hno.
    destruct (Hrow p id r Hp Hr) as (p1 & [Hp1 _] & Hno1).
    destruct (Hrow q id' r' Hq Hr') as (p2 & [Hp2 _] & Hno2).
    rewrite Hno1, Hno2 in Hno. apply (inj pretty) in Hno.
    assert (p1 = p2) as -> by lia. congruence.
Qed.

Lemma row_numbers_within_limit_witness :
  ∃ rows,
    (main (sample_world [101; 102; 103; 104; 105])
          (Schedule [0; 1]%nat [1; 0]%nat) ask 3 2 boot).1 = Printed (Report 2 2 rows) ∧
    ∀ r, r ∈ rows → ∃ rank, row_no r = pretty rank ∧ 3 ≤ rank ≤ 3 + 2 - 1 ∧ rank ≤ 200.
Proof.
  destruct (row_numbers_within_limit (sample_world [101; 102; 103; 104; 105])
              (Schedule [0; 1]%nat [1; 0]%nat) ask 3 2 [101; 102; 103; 104; 105] boot)
    as (rows & Hmain & Hranks & _).
  - lia.
  - lia.
  - simpl. lia.
  - reflexivity.
  - apply (bool_decide_unpack _). vm_compute. exact I.
  - exists rows. split; [exact Hmain | exact Hranks].
Defined.

(** ** How [main] ends *)

(** X6.  When the listing request raises, the run is over: the exception
    leaves [main], the listing url is the only request made, no fetch task
    was started, the clock was never read and nothing slept. *)
Theorem failed_listing_ends_the_run w s m start num σ :
  1 ≤ start → 1 ≤ num → start + num - 1 ≤ MODE_LIMITS m →
  listing w (mode_name m) = Raised →
  main w s m start num σ =
    (Uncaught RequestException,
     Machine 0 (clock_reads σ) (log σ ++ [Get (STORIES (mode_name m))])).
Proof.
  intros Hstart Hnum Hlimit Hl. rewrite main_run by done. simpl. by rewrite Hl.
Qed.

Lemma failed_listing_ends_the_run_witness :
  main (World sample_clock (λ _, Raised) (λ _, sample_item))
       (Schedule [0]%nat [0]%nat) new 1 50 boot =
    (Uncaught RequestException,
     Machine 0 0 [Get "https://hacker-news.firebaseio.com/v0/newstories.json"]).
Proof.
  apply (failed_listing_ends_the_run (World sample_clock (λ _, Raised) (λ _, sample_item))
           (Schedule [0]%nat [0]%nat) new 1 50 boot).
  - lia.
  - lia.
  - simpl. lia.
  - reflexivity.
Defined.

Lemma run_pool_no_ids w order σ : run_pool w [] order σ = (tt, σ).
Proof.
  induction order as [|k order IH]; [done|].
  by rewrite run_pool_cons.
Qed.

(** X7.  When the listing stops before position [start - 1] (an empty
    listing, for one), the window is empty and the run prints an empty
    table: the listing url is the only request made, the progress bar has a
    total of zero, and the limiter is never consulted. *)
Theorem empty_window_prints_empty_table w s m start num l σ :
  1 ≤ start → 1 ≤ num → start + num - 1 ≤ MODE_LIMITS m →
  listing w (mode_name m) = Json l →
  Z.of_nat (length l) ≤ start - 1 →
  completed s = [] →
  main w s m start num σ =
    (Printed (Report 0 0 []),
     Machine 0 (clock_reads σ) (log σ ++ [Get (STORIES (mode_name m))])).
Proof.
  intros Hstart Hnum Hlimit Hl Hshort Hcompleted.
  rewrite main_run by done. simpl. rewrite Hl.
  assert (py_slice l (start - 1) (start - 1 + num) = []) as ->.
  { rewrite py_slice_nonneg by lia. rewrite drop_ge by lia. apply take_nil. }
  by rewrite run_pool_no_ids, Hcompleted.
Qed.

Lemma empty_window_prints_empty_table_witness :
  main (sample_world [101; 102]) (Schedule [] []) best 3 10 boot =
    (Printed (Report 0 0 []),
     Machine 0 0 [Get "https://hacker-news.firebaseio.com/v0/beststories.json"]).
Proof.
  apply (empty_window_prints_empty_table (sample_world [101; 102]) (Schedule [] [])
           best 3 10 [101; 102] boot).
  - lia.
  - lia.
  - simpl. lia.
  - reflexivity.
  - simpl. lia.
  - reflexivity.
Defined.

(** ** The limiter *)

Section limiter.
Variable w : world.

(** A passage either finds that enough time has gone by and does not sleep,
    or sleeps for the time that is missing. *)
Lemma gate_sleep_cases calls_per_sec σ :
  let wait := (interval calls_per_sec - (clock w (clock_reads σ) - last_time σ))%Q in
  (gate_sleep w calls_per_sec σ = [] ∧ (wait <= 0)%Q) ∨
  (gate_sleep w calls_per_sec σ = [Sleep wait] ∧ (0 < wait)%Q).
Proof.
  intros wait. unfold gate_sleep. fold wait.
  destruct (Qle_bool wait 0) eqn:Hle; simpl.
  - left. split; [done|]. by apply Qle_bool_iff.
  - right. split; [done|]. apply Qnot_le_lt. intros Hwait.
    apply Qle_bool_iff in Hwait. congruence.
Qed.

Lemma run_pool_sleeps ids order : ∀ σ,
  (∀ i, (clock w i <= clock w (S i))%Q) →
  (last_time σ <= clock w (clock_reads σ))%Q →
  ∀ d, Sleep d ∈ log (run_pool w ids order σ).2 →
       Sleep d ∈ log σ ∨ (0 < d ∧ d <= interval 10)%Q.
Proof.
  induction order as [|k order IH]; intros σ Hclock Hlast d Hd; [by left|].
  rewrite run_pool_cons in Hd. destruct (ids !! k) as [id|]; [|by apply IH].
  apply IH in Hd; [|done|].
  - destruct Hd as [Hd|Hd]; [|by right].
    rewrite get_article_by_id_run in Hd. simpl in Hd.
    apply elem_of_app in Hd as [Hd|Hd]; [by left|].
    apply elem_of_app in Hd as [Hd|Hd].
    + right. destruct (gate_sleep_cases 10 σ) as [[Hgate _]|[Hgate Hwait]];
        rewrite Hgate in Hd.
      * by apply not_elem_of_nil in Hd.
      * apply list_elem_of_singleton in Hd. injection Hd as ->.
        split; [done|]. lra.
    + apply list_elem_of_singleton in Hd. discriminate.
  - rewrite get_article_by_id_run. simpl. apply Hclock.
Qed.

End limiter.

(** X8.  As long as the clock never runs backwards and does not read below
    zero, the limiter never sleeps for longer than its interval (a tenth of
    a second, in exact arithmetic), and never for a time that is not
    positive: every sleep a call of [get_stories] adds to the log lasts
    more than 0 and at most [interval 10] seconds. *)
Theorem sleeps_are_short w s mode n max_workers start σ :
  (∀ i, (clock w i <= clock w (S i))%Q) →
  (0 <= clock w (clock_reads σ))%Q →
  ∀ d, Sleep d ∈ log (get_stories w s mode n max_workers start σ).2 →
       Sleep d ∈ log σ ∨ (0 < d ∧ d <= interval 10)%Q.
Proof.
  intros Hclock Hzero d. rewrite get_stories_run. simpl.
  assert (∀ l0, Sleep d ∈ l0 ++ [Get (STORIES mode)] → Sleep d ∈ l0) as Hlisting.
  { intros l0 Hin. apply elem_of_app in Hin as [Hin|Hin]; [done|].
    apply list_elem_of_singleton in Hin. discriminate. }
  destruct (listing w mode) as [|l]; simpl.
  - intros Hd. left. by apply Hlisting.
  - destruct (Z.max max_workers n <=? 0); simpl.
    + intros Hd. left. by apply Hlisting.
    + intros Hd. apply run_pool_sleeps in Hd; [|done|done].
      destruct Hd as [Hd|Hd]; [left; by apply Hlisting | by right].
Qed.

Lemma sleeps_are_short_witness :
  Sleep (interval 10 - (steady_clock 2 - steady_clock 1)) ∈ log boot ∨
  (0 < interval 10 - (steady_clock 2 - steady_clock 1) ∧
   interval 10 - (steady_clock 2 - steady_clock 1) <= interval 10)%Q.
Proof.
  apply (sleeps_are_short (World steady_clock (λ _, Json [101; 102; 103]) (λ _, sample_item))
           (Schedule [0; 1; 2]%nat [0; 1; 2]%nat) "top" 3 10 1 boot).
  - intros i. simpl. unfold steady_clock.
    rewrite Nat.odd_succ, <- Nat.negb_odd, Nat2Z.inj_succ.
    unfold Z.succ. rewrite inject_Z_plus.
    change (inject_Z 1) with 1%Q. generalize (inject_Z (Z.of_nat i)). intros x.
    destruct (Nat.odd i); simpl; lra.
  - vm_compute. discriminate.
  - apply list_elem_of_In. vm_compute. do 2 right. left. reflexivity.
Defined.



(** ** What the cells and the urls never are *)

(** X11.  The string the code puts in a cell of the title or url column is
    never the empty string: a failed fetch gets the two placeholders, a
    missing or empty title the default title, and a missing or empty url
    the permalink. *)
Theorem no_empty_cell_string w s m start num l σ :
  1 ≤ start → 1 ≤ num → start + num - 1 ≤ MODE_LIMITS m →
  listing w (mode_name m) = Json l →
  let ids := py_slice l (start - 1) (start - 1 + num) in
  completed s ≡ₚ seq 0 (length ids) →
  ∃ rows,
    (main w s m start num σ).1 = Printed (Report (length ids) (length ids) rows) ∧
    ∀ r, r ∈ rows → cell_text (row_title r) ≠ "" ∧ cell_text (row_url r) ≠ "".
Proof.
  intros Hstart Hnum Hlimit Hl ids Hperm.
  destruct (main_Printed w s m start num l σ) as (rows & Hmain & Htable); [done..|].
  fold ids in Hmain, Htable.
  exists rows. split; [done|]. intros r Hr.
  destruct Htable as (id_to_post & Hforall & Hposts).
  apply list_elem_of_lookup_1 in Hr as [q Hq].
  destruct (Forall2_lookup_r _ _ _ _ _ Hforall Hq) as (id & _ & Hpost).
  destruct (Hposts id r Hpost) as (k & p & _ & _ & ->).
  destruct (item w k id) as [|story]; simpl; [done|].
  unfold displayed_title, displayed_url, py_or. split.
  - destruct (story !! "title") as [title|]; [|done]. by case_decide.
  - destruct (story !! "url") as [url|]; [|done]. by case_decide.
Qed.

Lemma no_empty_cell_string_witness :
  ∃ rows,
    (main (sample_world [102; 103; 104]) (Schedule [0; 1; 2]%nat [2; 1; 0]%nat) top 1 3 boot).1
      = Printed (Report 3 3 rows) ∧
    ∀ r, r ∈ rows → cell_text (row_title r) ≠ "" ∧ cell_text (row_url r) ≠ "".
Proof.
  apply (no_empty_cell_string (sample_world [102; 103; 104]) (Schedule [0; 1; 2]%nat [2; 1; 0]%nat)
           top 1 3 [102; 103; 104] boot).
  - lia.
  - lia.
  - simpl. lia.
  - reflexivity.
  - apply (bool_decide_unpack _). vm_compute. exact I.
Defined.

Lemma length_append (s1 s2 : string) :
  String.length (s1 +:+ s2) = (String.length s1 + String.length s2)%nat.
Proof. induction s1 as [|a s1 IH]; simpl; [done | by rewrite IH]. Qed.

Lemma append_inj_r (s1 s2 t : string) : s1 +:+ t = s2 +:+ t → s1 = s2.
Proof.
  revert s2. induction s1 as [|a s1 IH]; intros [|b s2] Heq; simpl in Heq.
  - done.
  - apply (f_equal String.length) in Heq. simpl in Heq.
    rewrite !length_append in Heq. simpl in Heq. lia.
  - apply (f_equal String.length) in Heq. simpl in Heq.
    rewrite !length_append in Heq. simpl in Heq. lia.
  - injection Heq as -> Heq. f_equal. by apply IH.
Qed.

(** X12.  The urls tell the requests apart: two modes have different
    listing urls, two ids have different item urls, and two stories without
    a url of their own are shown with different permalinks. *)
Theorem urls_tell_requests_apart :
  (∀ m m', STORIES (mode_name m) = STORIES (mode_name m') → m = m') ∧
  (∀ id id', ITEM id = ITEM id' → id = id') ∧
  (∀ id id' (story story' : gmap string string),
     story !! "url" = None → story' !! "url" = None →
     displayed_url id story = displayed_url id' story' → id = id').
Proof.
  split_and!.
  - intros m m' Heq. unfold STORIES in Heq.
    apply (inj (String.append BASE)), (inj (String.append "/")), append_inj_r in Heq.
    by destruct m, m'.
  - intros id id' Heq. unfold ITEM in Heq.
    apply (inj (String.append BASE)), (inj (String.append "/item/")), append_inj_r in Heq.
    by apply (inj pretty).
  - intros id id' story story' Hurl Hurl' Heq.
    unfold displayed_url in Heq. rewrite Hurl, Hurl' in Heq. simpl in Heq.
    apply (inj (String.append "https://news.ycombinator.com/item?id=")) in Heq.
    by apply (inj pretty).
Qed.

Lemma urls_tell_requests_apart_witness : 8675309 = 8675309.
Proof.
  apply (proj1 (proj2 urls_tell_requests_apart) 8675309 8675309). reflexivity.
Defined.

(** ** Pages *)

(** Where no id repeats, the table is read off the window position by
    position. *)
Lemma table_of_NoDup w ids start rows :
  NoDup ids → table_of w ids start rows →
  rows = imap (λ p id, post_row id (start + Z.of_nat p) (item w p id)) ids.
Proof.
  intros Hnodup Htable. apply list_eq. intros q.
  rewrite list_lookup_imap.
  destruct (ids !! q) as [id|] eqn:Hq; simpl.
  - destruct (table_of_lookup _ _ _ _ id q Htable) as (k & Hk & Hrows).
    { by apply NoDup_last_at. }
    assert (k = q) as -> by (by eapply NoDup_lookup).
    by apply Hrows.
  - apply lookup_ge_None in Hq. apply lookup_ge_None_2.
    rewrite (table_of_length _ _ _ _ Htable). lia.
Qed.

(** A window is its first [k] ids followed by the window that starts [k]
    ranks later. *)
Lemma py_slice_pages {A} (l : list A) (start k num : Z) :
  1 ≤ start → 0 ≤ k → k ≤ num →
  py_slice l (start - 1) (start - 1 + num) =
    py_slice l (start - 1) (start - 1 + k) ++
    py_slice l (start + k - 1) (start + k - 1 + (num - k)).
Proof.
  intros Hstart Hk Hnum. rewrite !py_slice_nonneg by lia.
  replace (Z.to_nat num) with (Z.to_nat k + Z.to_nat (num - k))%nat by lia.
  replace (Z.to_nat (start + k - 1)) with (Z.to_nat (start - 1) + Z.to_nat k)%nat by lia.
  by rewrite <- take_take_drop, drop_drop.
Qed.

(** X13.  Pages compose.  With the listing and the per-id answers fixed and
    no id repeated in the window, the table of [start, num] is the table of
    [start, k] followed by the table of [start + k, num - k]: same rows,
    same row numbers. *)
Theorem pages_compose w s s1 s2 m start num k l σ σ1 σ2 :
  1 ≤ start → 1 ≤ k → k < num → start + num - 1 ≤ MODE_LIMITS m →
  listing w (mode_name m) = Json l →
  (∀ i j id, item w i id = item w j id) →
  let ids := py_slice l (start - 1) (start - 1 + num) in
  let ids1 := py_slice l (start - 1) (start - 1 + k) in
  let ids2 := py_slice l (start + k - 1) (start + k - 1 + (num - k)) in
  NoDup ids →
  completed s ≡ₚ seq 0 (length ids) →
  completed s1 ≡ₚ seq 0 (length ids1) →
  completed s2 ≡ₚ seq 0 (length ids2) →
  ∃ rows1 rows2,
    (main w s1 m start k σ1).1 = Printed (Report (length ids1) (length ids1) rows1) ∧
    (main w s2 m (start + k) (num - k) σ2).1 =
      Printed (Report (length ids2) (length ids2) rows2) ∧
    (main w s m start num σ).1 =
      Printed (Report (length ids) (length ids) (rows1 ++ rows2)).
Proof.
  intros Hstart Hk Hnum Hlimit Hl Hitem ids ids1 ids2 Hnodup Hperm Hperm1 Hperm2.
  assert (ids = ids1 ++ ids2) as Hids by (apply py_slice_pages; lia).
  assert (NoDup ids1 ∧ NoDup ids2) as [Hnodup1 Hnodup2].
  { rewrite Hids in Hnodup. apply NoDup_app in Hnodup. tauto. }
  destruct (main_Printed w s m start num l σ) as (rows & Hmain & Htable); [lia..|done|done|].
  destruct (main_Printed w s1 m start k l σ1) as (rows1 & Hmain1 & Htable1); [lia..|done|done|].
  destruct (main_Printed w s2 m (start + k) (num - k) l σ2) as (rows2 & Hmain2 & Htable2);
    [lia..|done|done|].
  fold ids in Hmain, Htable. fold ids1 in Hmain1, Htable1. fold ids2 in Hmain2, Htable2.
  exists rows1, rows2. split_and!; [done..|].
  rewrite Hmain. do 2 f_equal.
  rewrite (table_of_NoDup _ _ _ _ Hnodup Htable),
          (table_of_NoDup _ _ _ _ Hnodup1 Htable1),
          (table_of_NoDup _ _ _ _ Hnodup2 Htable2).
  rewrite Hids, imap_app. f_equal. apply imap_ext. intros p id Hp. simpl.
  assert (length ids1 = Z.to_nat k) as ->.
  { apply lookup_lt_Some in Hp. subst ids1 ids2.
    rewrite py_slice_nonneg in Hp by lia. rewrite py_slice_nonneg by lia.
    rewrite length_take, length_drop in *. lia. }
  rewrite (Hitem _ p id). f_equal. lia.
Qed.

Lemma pages_compose_witness :
  ∃ rows1 rows2,
    (main (sample_world [101; 102; 103; 104; 105]) (Schedule [0; 1]%nat [1; 0]%nat)
          top 1 2 boot).1 = Printed (Report 2 2 rows1) ∧
    (main (sample_world [101; 102; 103; 104; 105]) (Schedule [0; 1; 2]%nat [0; 2; 1]%nat)
          top 3 3 boot).1 = Printed (Report 3 3 rows2) ∧
    (main (sample_world [101; 102; 103; 104; 105])
          (Schedule [0; 1; 2; 3; 4]%nat [4; 3; 2; 1; 0]%nat)
          top 1 5 boot).1 = Printed (Report 5 5 (rows1 ++ rows2)).
Proof.
  apply (pages_compose (sample_world [101; 102; 103; 104; 105])
           (Schedule [0; 1; 2; 3; 4]%nat [4; 3; 2; 1; 0]%nat)
           (Schedule [0; 1]%nat [1; 0]%nat) (Schedule [0; 1; 2]%nat [0; 2; 1]%nat)
           top 1 5 2 [101; 102; 103; 104; 105] boot boot boot).
  - lia.
  - lia.
  - lia.
  - simpl. lia.
  - reflexivity.
  - intros i j id. reflexivity.
  - apply (bool_decide_unpack _). vm_compute. exact I.
  - apply (bool_decide_unpack _). vm_compute. exact I.
  - apply (bool_decide_unpack _). vm_compute. exact I.
  - apply (bool_decide_unpack _). vm_compute. exact I.
Defined.

(** ** Two fetches of one id *)

Section last_writer.
Variables (w : world) (ids : list Z) (start : Z).

Local Abbreviation body := (on_completed w (future_to_id ids) (id_to_index ids start)).

Lemma for_each_app {S A} (f : S → A → res S) (l1 l2 : list A) : ∀ s,
  for_each f s (l1 ++ l2) = for_each f s l1 ≫= λ s', for_each f s' l2.
Proof.
  induction l1 as [|x l1 IH]; intros s; [done|].
  simpl. destruct (f s x) as [s'|e]; simpl; [apply IH | done].
Qed.

(** A round of the loop writes under the id of its own future only. *)
Lemma on_completed_other id_to_post id_to_post' k id :
  ids !! k ≠ Some id → body id_to_post k = Val id_to_post' →
  id_to_post' !! id = id_to_post !! id.
Proof.
  intros Hk. unfold on_completed, subscript, future_to_id.
  rewrite lookup_map_seq_0.
  destruct (ids !! k) as [id'|]; simpl; [|done].
  destruct (id_to_index ids start !! id') as [index|]; simpl; [|done].
  intros [= <-]. apply lookup_insert_ne. congruence.
Qed.

Lemma for_each_other order id : ∀ id_to_post id_to_post',
  Forall (λ k, ids !! k ≠ Some id) order →
  for_each body id_to_post order = Val id_to_post' →
  id_to_post' !! id = id_to_post !! id.
Proof.
  induction order as [|k order IH]; intros m m' Hother Hrun.
  - by injection Hrun as <-.
  - apply Forall_cons in Hother as [Hk Hother]. simpl in Hrun.
    destruct (body m k) as [m1|e] eqn:Hstep; simpl in Hrun; [|done].
    rewrite (IH _ _ Hother Hrun). by eapply on_completed_other.
Qed.

(** After the loop, the row under an id is the one written by the last of
    its futures to complete. *)
Lemma for_each_last pre k post id index id_to_post' :
  ids !! k = Some id →
  id_to_index ids start !! id = Some index →
  Forall (λ j, ids !! j ≠ Some id) post →
  for_each body ∅ (pre ++ k :: post) = Val id_to_post' →
  id_to_post' !! id = Some (post_row id index (item w k id)).
Proof.
  intros Hk Hindex Hpost Hrun. rewrite for_each_app in Hrun.
  destruct (for_each body ∅ pre) as [m1|e]; [|done].
  assert (body m1 k = Val (<[id := post_row id index (item w k id)]> m1)) as Hstep.
  { unfold on_completed, subscript, future_to_id.
    rewrite lookup_map_seq_0, Hk. simpl. by rewrite Hindex. }
  change (body m1 k ≫= (λ s', for_each body s' post) = Val id_to_post') in Hrun.
  rewrite Hstep in Hrun.
  rewrite (for_each_other _ _ _ _ Hpost Hrun). apply lookup_insert_eq.
Qed.
End last_writer.

(** X14.  When an id stands at several positions of the window, each of
    its futures that the collecting loop handles overwrites the row kept
    for the id: the row shown at all its positions is the one made from the
    result of the future of that id that [as_completed] handed back last,
    whatever the results of the others. *)
Theorem last_handled_future_is_shown w s m start num l σ pre k post id :
  1 ≤ start → 1 ≤ num → start + num - 1 ≤ MODE_LIMITS m →
  listing w (mode_name m) = Json l →
  let ids := py_slice l (start - 1) (start - 1 + num) in
  completed s ≡ₚ seq 0 (length ids) →
  completed s = pre ++ k :: post →
  ids !! k = Some id →
  (∀ j, j ∈ post → ids !! j ≠ Some id) →
  ∃ rows index,
    (main w s m start num σ).1 = Printed (Report (length ids) (length ids) rows) ∧
    id_to_index ids start !! id = Some index ∧
    ∀ q, ids !! q = Some id → rows !! q = Some (post_row id index (item w k id)).
Proof.
  intros Hstart Hnum Hlimit Hl ids Hperm Hsplit Hk Hpost.
  destruct (for_each_on_completed w ids start (completed s) [] ∅ (posted_empty w ids start))
    as (id_to_post & Hrun & _ & Hdone).
  { rewrite Hperm. apply Forall_seq. lia. }
  destruct (fill_table id_to_post ids) as (rows & Hfill & Hforall).
  { intros id' Hin. apply list_elem_of_lookup_1 in Hin as [j Hj].
    apply (Hdone j); [|done]. simpl. rewrite Hperm.
    apply elem_of_seq. apply lookup_lt_Some in Hj. lia. }
  destruct (id_to_index_elem ids start id) as (p & _ & Hindex).
  { by eapply list_elem_of_lookup_2. }
  exists rows, (start + Z.of_nat p). split_and!; [|done|].
  - rewrite main_run by done. simpl. rewrite Hl. simpl. fold ids.
    unfold collect. rewrite Hrun. simpl. rewrite Hfill. simpl.
    by rewrite Hperm, length_seq.
  - intros q Hq.
    destruct (Forall2_lookup_l _ _ _ _ _ Hforall Hq) as (r & -> & Hr).
    rewrite <- Hr. rewrite Hsplit in Hrun.
    eapply for_each_last; [done | done | | exact Hrun].
    by apply Forall_forall.
Qed.

Lemma last_handled_future_is_shown_witness :
  ∃ rows,
    (main (World sample_clock (λ _, Json [107; 108; 107])
             (λ task id, if decide (task = 0%nat) then Raised else sample_item id))
          (Schedule [0; 1; 2]%nat [2; 1; 0]%nat) top 1 3 boot).1
      = Printed (Report 3 3 rows) ∧
    rows !! 2%nat = Some (post_row 107 3 Raised).
Proof.
  destruct (last_handled_future_is_shown
              (World sample_clock (λ _, Json [107; 108; 107])
                 (λ task id, if decide (task = 0%nat) then Raised else sample_item id))
              (Schedule [0; 1; 2]%nat [2; 1; 0]%nat) top 1 3 [107; 108; 107] boot
              [2; 1]%nat 0%nat [] 107)
    as (rows & index & Hmain & Hindex & Hrows).
  - lia.
  - lia.
  - simpl. lia.
  - reflexivity.
  - apply (bool_decide_unpack _). vm_compute. exact I.
  - reflexivity.
  - reflexivity.
  - intros j Hj. by apply not_elem_of_nil in Hj.
  - exists rows. split; [exact Hmain|].
    assert (index = 3) as -> by (vm_compute in Hindex; congruence).
    apply (Hrows 2%nat). reflexivity.
Defined.

(** * The run when an item need not be an object *)

Section any_json.
Variables (a : api) (ids : list Z) (start : Z).

Local Abbreviation strict := (on_completed (objects a) (future_to_id ids) (id_to_index ids start)).

Lemma for_each_ext {S A} (f g : S → A → res S) (l : list A) : ∀ s,
  Forall (λ x, ∀ s', f s' x = g s' x) l → for_each f s l = for_each g s l.
Proof.
  induction l as [|x l IH]; intros s Hl; [done|].
  apply Forall_cons in Hl as [Hx Hl]. simpl. rewrite Hx.
  destruct (g s x) as [s'|e]; simpl; [by apply IH | done].
Qed.

(** A fetch does to the machine what it does when bodies are objects, and
    returns the body the endpoint gave. *)
Lemma any_json_get_article_by_id k id σ :
  AnyJson.get_article_by_id a k id σ =
    (api_item a k id, (get_article_by_id (objects a) k id σ).2).
Proof.
  rewrite get_article_by_id_run.
  unfold AnyJson.get_article_by_id, wrapper, gate_sleep, mbind, M_bind, time_time.
  simpl. destruct (negb _); simpl; [by rewrite <- app_assoc | done].
Qed.

(** The pool leaves the machine as it does when bodies are objects, and
    every task it ran has the endpoint's answer as the result of its
    future. *)
Lemma any_json_run_pool order : ∀ σ,
  (AnyJson.run_pool a ids order σ).2 = (run_pool (objects a) ids order σ).2 ∧
  ∀ k id, k ∈ order → ids !! k = Some id →
          (AnyJson.run_pool a ids order σ).1 !! k = Some (api_item a k id).
Proof.
  induction order as [|k order IH]; intros σ.
  - split; [done|]. intros k id Hk. by apply not_elem_of_nil in Hk.
  - rewrite run_pool_cons. simpl.
    destruct (ids !! k) as [id|] eqn:Hk.
    + unfold mbind, M_bind. rewrite any_json_get_article_by_id.
      destruct (IH (get_article_by_id (objects a) k id σ).2) as [Hstate Hresults].
      destruct (AnyJson.run_pool a ids order _) as [results σ'] eqn:Hrun.
      simpl in *. split; [done|].
      intros k' id' Hin Hk'. destruct (decide (k' = k)) as [->|Hne].
      * rewrite lookup_insert_eq. congruence.
      * rewrite lookup_insert_ne by done. apply Hresults; [|done].
        apply elem_of_cons in Hin as [?|?]; [done | done].
    + destruct (IH σ) as [Hstate Hresults]. split; [done|].
      intros k' id' Hin Hk'. apply Hresults; [|done].
      apply elem_of_cons in Hin as [->|?]; [congruence | done].
Qed.

Lemma on_completed_eq w id_to_post k id :
  ids !! k = Some id →
  ∃ index, id_to_index ids start !! id = Some index ∧
    on_completed w (future_to_id ids) (id_to_index ids start) id_to_post k =
      Val (<[id := post_row id index (item w k id)]> id_to_post).
Proof.
  intros Hk. destruct (id_to_index_elem ids start id) as (p & _ & Hindex).
  { by eapply list_elem_of_lookup_2. }
  exists (start + Z.of_nat p). split; [done|].
  unfold on_completed, subscript, future_to_id.
  rewrite lookup_map_seq_0, Hk. simpl. by rewrite Hindex.
Qed.

(** A round of the loop on a body without [get] raises; on any other
    result it does what it does when bodies are objects. *)
Lemma any_json_on_completed results id_to_post k id :
  ids !! k = Some id → results !! k = Some (api_item a k id) →
  AnyJson.on_completed results (future_to_id ids) (id_to_index ids start) id_to_post k =
    if no_get a ids k then Exn AttributeError else strict id_to_post k.
Proof.
  intros Hk Hresult.
  destruct (on_completed_eq (objects a) id_to_post k id Hk) as (index & Hindex & ->).
  unfold AnyJson.on_completed, subscript, future_to_id, no_get.
  rewrite lookup_map_seq_0, Hk. simpl. rewrite Hindex. simpl. rewrite Hresult. simpl.
  by destruct (api_item a k id) as [|[story|]].
Qed.

Lemma any_json_for_each results order :
  Forall (λ k, k < length ids)%nat order →
  (∀ k id, k ∈ order → ids !! k = Some id → results !! k = Some (api_item a k id)) →
  ∀ id_to_post,
    (Forall (λ k, no_get a ids k = false) order →
     for_each (AnyJson.on_completed results (future_to_id ids) (id_to_index ids start))
              id_to_post order = for_each strict id_to_post order) ∧
    (Exists (λ k, no_get a ids k = true) order →
     for_each (AnyJson.on_completed results (future_to_id ids) (id_to_index ids start))
              id_to_post order = Exn AttributeError).
Proof.
  induction order as [|k order IH]; intros Hvalid Hresults m.
  - split; [done|]. intros Hex. by apply Exists_nil in Hex.
  - apply Forall_cons in Hvalid as [Hk Hvalid].
    apply lookup_lt_is_Some in Hk as [id Hk].
    assert (∀ k' id', k' ∈ order → ids !! k' = Some id' →
              results !! k' = Some (api_item a k' id')) as Hresults'.
    { intros k' id' Hin. apply Hresults. by apply list_elem_of_further. }
    simpl. rewrite (any_json_on_completed results m k id Hk).
    2:{ apply Hresults; [apply list_elem_of_here | done]. }
    destruct (on_completed_eq (objects a) m k id Hk) as (index & _ & Hstep).
    destruct (no_get a ids k) eqn:Hget.
    + split; [|done]. intros Hall. apply Forall_cons in Hall as [? _]. congruence.
    + rewrite Hstep. simpl. destruct (IH Hvalid Hresults' (<[id:=post_row id index (item (objects a) k id)]> m))
        as [IHall IHex].
      split.
      * intros Hall. apply Forall_cons in Hall as [_ Hall]. by apply IHall.
      * intros Hex. apply Exists_cons in Hex as [Hex|Hex]; [congruence | by apply IHex].
Qed.

(** The collecting loop and the table: the run raises as soon as it meets
    a body without [get], and is the run on objects when there is none. *)
Lemma any_json_collect results order :
  order ≡ₚ seq 0 (length ids) →
  (∀ k id, ids !! k = Some id → results !! k = Some (api_item a k id)) →
  ((∀ k, no_get a ids k = false) →
   AnyJson.collect results ids start order = collect (objects a) ids start order) ∧
  (∀ k, no_get a ids k = true →
   AnyJson.collect results ids start order = Exn AttributeError).
Proof.
  intros Hperm Hresults.
  assert (Forall (λ k, k < length ids)%nat order) as Hvalid.
  { rewrite Hperm. apply Forall_seq. lia. }
  destruct (any_json_for_each results order Hvalid (λ k id _, Hresults k id) ∅)
    as [Hall Hex].
  split.
  - intros Hget. unfold AnyJson.collect, collect. rewrite Hall; [done|].
    by apply Forall_forall.
  - intros k Hget. unfold AnyJson.collect. rewrite Hex; [done|].
    apply Exists_exists. exists k. split; [|done].
    rewrite Hperm. apply elem_of_seq. split; [lia|]. simpl.
    unfold no_get in Hget. destruct (ids !! k) eqn:Hk; [|done].
    by apply lookup_lt_Some in Hk.
Qed.
End any_json.

(** [main] with arguments that pass the three checks. *)
Lemma any_json_main_run a s m start num σ :
  1 ≤ start → 1 ≤ num → start + num - 1 ≤ MODE_LIMITS m →
  AnyJson.main a s m start num σ =
    let σ1 := Machine 0 (clock_reads σ) (log σ ++ [Get (STORIES (mode_name m))]) in
    match api_listing a (mode_name m) with
    | Raised => (Uncaught RequestException, σ1)
    | Json l =>
        let ids := py_slice l (start - 1) (start - 1 + num) in
        let run := AnyJson.run_pool a ids (admitted s) σ1 in
        (match AnyJson.collect run.1 ids start (completed s) with
         | Val rep => Printed rep
         | Exn e => Uncaught e
         end, run.2)
    end.
Proof.
  intros Hstart Hnum Hlimit. unfold AnyJson.main.
  destruct (Z.ltb_spec start 1) as [|_]; [lia|].
  destruct (Z.ltb_spec num 1) as [|_]; [lia|].
  destruct (Z.ltb_spec (MODE_LIMITS m) (start + num - 1)) as [|_]; [lia|].
  unfold AnyJson.get_stories, AnyJson.resolve_ids, rate_limit, set_last_time,
    requests_get, emit, mbind, M_bind, mret, M_ret. simpl.
  destruct (api_listing a (mode_name m)) as [|l]; [done|].
  destruct (Z.leb_spec (Z.max 10 num) 0) as [|_]; [lia|].
  by destruct (AnyJson.run_pool _ _ _ _) as [results σ'].
Qed.

Lemma any_json_main_usage a s m start num σ :
  start < 1 ∨ num < 1 ∨ MODE_LIMITS m < start + num - 1 →
  ∃ message, AnyJson.main a s m start num σ = (UsageError message, σ).
Proof.
  intros Hbad. unfold AnyJson.main.
  destruct (Z.ltb_spec start 1); [by eexists|].
  destruct (Z.ltb_spec num 1); [by eexists|].
  destruct (Z.ltb_spec (MODE_LIMITS m) (start + num - 1)); [by eexists|].
  lia.
Qed.

(** How a run whose arguments pass the checks and whose listing request
    succeeds ends, when every task runs once and completes once. *)
Lemma any_json_main_outcome a s m start num l σ :
  1 ≤ start → 1 ≤ num → start + num - 1 ≤ MODE_LIMITS m →
  api_listing a (mode_name m) = Json l →
  let ids := py_slice l (start - 1) (start - 1 + num) in
  admitted s ≡ₚ seq 0 (length ids) →
  completed s ≡ₚ seq 0 (length ids) →
  ((∀ k, no_get a ids k = false) →
   (AnyJson.main a s m start num σ).1 = (main (objects a) s m start num σ).1) ∧
  (∀ k, no_get a ids k = true →
   (AnyJson.main a s m start num σ).1 = Uncaught AttributeError).
Proof.
  intros Hstart Hnum Hlimit Hl ids Hadmitted Hcompleted.
  rewrite any_json_main_run, main_run by done. simpl. rewrite Hl. simpl. fold ids.
  set (σ1 := Machine 0 (clock_reads σ) (log σ ++ [Get (STORIES (mode_name m))])).
  destruct (any_json_run_pool a ids (admitted s) σ1) as [_ Hresults].
  destruct (any_json_collect a ids start (AnyJson.run_pool a ids (admitted s) σ1).1
              (completed s) Hcompleted) as [Hall Hex].
  { intros k id Hk. apply Hresults; [|done]. rewrite Hadmitted.
    apply elem_of_seq. apply lookup_lt_Some in Hk. lia. }
  split.
  - intros Hget. by rewrite Hall.
  - intros k Hget. by rewrite (Hex k Hget).
Qed.

(** ** Failed fetches *)

(** C3, as the code has it.  Take arguments that pass the checks, a
    listing request that succeeds, a window in which no id repeats, and
    fetches that raise or answer with a JSON object, in any way.  The run
    is not aborted: it prints a table with one row per id of the window.
    The row of an id whose fetch raised is the placeholder with the id's
    rank; the row of any other id shows the title and the url fetched for
    it (the defaults standing in for an absent or empty field); every row
    depends on its own fetch alone; and the number of rows is that of any
    other such run over the same listing, whatever its fetches do. *)
Theorem raised_fetch_degrades_its_row_only a s m start num l σ :
  1 ≤ start → 1 ≤ num → start + num - 1 ≤ MODE_LIMITS m →
  api_listing a (mode_name m) = Json l →
  let ids := py_slice l (start - 1) (start - 1 + num) in
  NoDup ids →
  (∀ p id, ids !! p = Some id → api_item a p id ≠ Json NotObject) →
  admitted s ≡ₚ seq 0 (length ids) →
  completed s ≡ₚ seq 0 (length ids) →
  ∃ rows,
    (AnyJson.main a s m start num σ).1 = Printed (Report (length ids) (length ids) rows) ∧
    length rows = length ids ∧
    (∀ p id, ids !! p = Some id → api_item a p id = Raised →
       rows !! p = Some (Row (pretty (start + Z.of_nat p))
                             (Plain "<RATE LIMITED>") (Plain "😭"))) ∧
    (∀ p id story, ids !! p = Some id → api_item a p id = Json (Object story) →
       ∃ r, rows !! p = Some r ∧
         row_no r = pretty (start + Z.of_nat p) ∧
         (∀ title, story !! "title" = Some title → title ≠ "" →
            row_title r = Text title "bold yellow") ∧
         (story !! "title" = None ∨ story !! "title" = Some "" →
            row_title r = Text "<no title>" "bold yellow") ∧
         (∀ url, story !! "url" = Some url → url ≠ "" →
            row_url r = Text url "blue underline") ∧
         (story !! "url" = None ∨ story !! "url" = Some "" →
            row_url r = Text ("https://news.ycombinator.com/item?id=" +:+ pretty id)
                             "blue underline")) ∧
    (∀ a' s' σ',
       api_listing a' (mode_name m) = Json l →
       (∀ p id, ids !! p = Some id → api_item a' p id ≠ Json NotObject) →
       admitted s' ≡ₚ seq 0 (length ids) →
       completed s' ≡ₚ seq 0 (length ids) →
       ∃ rows', (AnyJson.main a' s' m start num σ').1 =
                  Printed (Report (length ids) (length ids) rows') ∧
                length rows' = length rows).
Proof.
  intros Hstart Hnum Hlimit Hl ids Hnodup Hobjects Hadmitted Hcompleted.
  assert (∀ a' s' σ',
            api_listing a' (mode_name m) = Json l →
            (∀ p id, ids !! p = Some id → api_item a' p id ≠ Json NotObject) →
            admitted s' ≡ₚ seq 0 (length ids) →
            completed s' ≡ₚ seq 0 (length ids) →
            ∃ rows', (AnyJson.main a' s' m start num σ').1 =
                       Printed (Report (length ids) (length ids) rows') ∧
                     rows' = imap (λ p id, post_row id (start + Z.of_nat p)
                                             (item (objects a') p id)) ids) as Hrun.
  { intros a' s' σ' Hl' Hobjects' Hadmitted' Hcompleted'.
    destruct (any_json_main_outcome a' s' m start num l σ') as [Hstrict _]; [done..|].
    fold ids in Hstrict. rewrite Hstrict.
    2:{ intros k. unfold no_get. destruct (ids !! k) as [id|] eqn:Hk; [|done].
        specialize (Hobjects' k id Hk). by destruct (api_item a' k id) as [|[story|]]. }
    destruct (main_Printed (objects a') s' m start num l σ') as (rows' & Hmain & Htable);
      [done..|].
    fold ids in Hmain, Htable. exists rows'. split; [done|].
    by apply table_of_NoDup. }
  destruct (Hrun a s σ) as (rows & Hmain & Hrows); [done..|].
  assert (length rows = length ids) as Hlen by (by rewrite Hrows, length_imap).
  exists rows. split_and!; [done | done | | |].
  - intros p id Hp Hitem.
    rewrite Hrows, list_lookup_imap, Hp. simpl. by rewrite Hitem.
  - intros p id story Hp Hitem. eexists. split.
    { rewrite Hrows, list_lookup_imap, Hp. simpl. rewrite Hitem. simpl. reflexivity. }
    simpl. unfold displayed_title, displayed_url, py_or. split_and!.
    + done.
    + intros title -> Hne. by rewrite decide_False.
    + by intros [-> | ->].
    + intros url -> Hne. by rewrite decide_False.
    + by intros [-> | ->].
  - intros a' s' σ' Hl' Hobjects' Hadmitted' Hcompleted'.
    destruct (Hrun a' s' σ') as (rows' & Hmain' & Hrows'); [done..|].
    exists rows'. split; [done|]. by rewrite Hlen, Hrows', length_imap.
Qed.

Lemma raised_fetch_degrades_its_row_only_witness :
  ∃ rows,
    (AnyJson.main (sample_api [101; 102; 103]) (Schedule [1; 0; 2]%nat [2; 0; 1]%nat)
                  top 1 3 boot).1 = Printed (Report 3 3 rows) ∧
    rows !! 1%nat = Some (Row "2" (Plain "<RATE LIMITED>") (Plain "😭")).
Proof.
  destruct (raised_fetch_degrades_its_row_only (sample_api [101; 102; 103])
              (Schedule [1; 0; 2]%nat [2; 0; 1]%nat) top 1 3 [101; 102; 103] boot)
    as (rows & Hmain & _ & Hraised & _).
  - lia.
  - lia.
  - simpl. lia.
  - reflexivity.
  - apply (bool_decide_unpack _). vm_compute. exact I.
  - intros [|[|[|p]]] id Hp; vm_compute in Hp; [| | |discriminate];
      injection Hp as <-; vm_compute; discriminate.
  - apply (bool_decide_unpack _). vm_compute. exact I.
  - apply (bool_decide_unpack _). vm_compute. exact I.
  - exists rows. split; [exact Hmain|].
    apply (Hraised 1%nat 102); reflexivity.
Defined.

(** Where C3 fails as it is worded.  With the id 107 at two positions, the
    fetch of the first raising and the fetch of the second succeeding, the
    rows of 107 are both the row of the fetch that was handled last: either
    the task that raised has no placeholder, or the task that succeeded has
    one.  And a fetch that does not raise but answers [null] aborts the
    whole run, although the arguments pass the checks and the listing
    request succeeds. *)
Lemma failed_fetch_counterexample :
  (AnyJson.main twice_api (Schedule [0; 1; 2]%nat [0; 1; 2]%nat) top 1 3 boot).1
    = Printed (Report 3 3
        [Row "3" (Text "A story" "bold yellow") (Text "https://example.org/story" "blue underline");
         Row "2" (Text "A story" "bold yellow") (Text "https://example.org/story" "blue underline");
         Row "3" (Text "A story" "bold yellow") (Text "https://example.org/story" "blue underline")]) ∧
  (AnyJson.main twice_api (Schedule [0; 1; 2]%nat [2; 1; 0]%nat) top 1 3 boot).1
    = Printed (Report 3 3
        [Row "3" (Plain "<RATE LIMITED>") (Plain "😭");
         Row "2" (Text "A story" "bold yellow") (Text "https://example.org/story" "blue underline");
         Row "3" (Plain "<RATE LIMITED>") (Plain "😭")]) ∧
  (1 ≤ 1 ∧ 1 ≤ 3 ∧ 1 + 3 - 1 ≤ MODE_LIMITS top) ∧
  api_listing (sample_api [101; 105; 103]) (mode_name top) = Json [101; 105; 103] ∧
  api_item (sample_api [101; 105; 103]) 1 105 = Json NotObject ∧
  (AnyJson.main (sample_api [101; 105; 103]) (Schedule [0; 1; 2]%nat [2; 1; 0]%nat)
                top 1 3 boot).1 = Uncaught AttributeError.
Proof.
  split_and!; try (vm_compute; reflexivity); simpl; lia.
Qed.

(** ** The spacing of admissions *)

Section spacing.
Variables (w : world) (ids : list Z).






End spacing.



(** ** How [main] ends *)

(** X5.  How [main] ends, when every fetch task runs once and completes
    once.  A failed argument check ends it with status 2 and the usage
    error.  When the checks pass and the listing request raises, that
    exception leaves [main]: status 1.  When the checks pass, the listing
    is a list of ids and some fetch of the window answers with a body that
    has no [get] ([null], for one), the [AttributeError] of [story.get]
    leaves [main]: status 1 again, and no table.  When the checks pass, the
    listing is a list of ids and every fetch of the window raises or
    answers with an object, the table is printed: status 0. *)
Theorem exit_status_of_a_run a s m start num σ :
  let o := (AnyJson.main a s m start num σ).1 in
  let checks_pass := 1 ≤ start ∧ 1 ≤ num ∧ start + num - 1 ≤ MODE_LIMITS m in
  let window l := py_slice l (start - 1) (start - 1 + num) in
  let runs_all l :=
    admitted s ≡ₚ seq 0 (length (window l)) ∧ completed s ≡ₚ seq 0 (length (window l)) in
  (¬ checks_pass → ∃ message, o = UsageError message ∧ exit_status o = 2) ∧
  (checks_pass → api_listing a (mode_name m) = Raised →
     o = Uncaught RequestException ∧ exit_status o = 1) ∧
  (∀ l k, checks_pass → api_listing a (mode_name m) = Json l → runs_all l →
     no_get a (window l) k = true →
     o = Uncaught AttributeError ∧ exit_status o = 1) ∧
  (∀ l, checks_pass → api_listing a (mode_name m) = Json l → runs_all l →
     (∀ k, no_get a (window l) k = false) →
     ∃ rows, o = Printed (Report (length (window l)) (length (window l)) rows) ∧
             exit_status o = 0).
Proof.
  intros o checks_pass window runs_all. split_and!.
  - intros Hbad.
    destruct (any_json_main_usage a s m start num σ) as [message Hmain].
    { subst checks_pass. lia. }
    exists message. subst o. by rewrite Hmain.
  - intros (Hstart & Hnum & Hlimit) Hl.
    subst o. rewrite any_json_main_run by done. simpl. by rewrite Hl.
  - intros l k (Hstart & Hnum & Hlimit) Hl [Hadmitted Hcompleted] Hk.
    destruct (any_json_main_outcome a s m start num l σ Hstart Hnum Hlimit Hl
                Hadmitted Hcompleted) as [_ Hex].
    subst o. by rewrite (Hex k Hk).
  - intros l (Hstart & Hnum & Hlimit) Hl [Hadmitted Hcompleted] Hnone.
    destruct (any_json_main_outcome a s m start num l σ Hstart Hnum Hlimit Hl
                Hadmitted Hcompleted) as [Hall _].
    destruct (main_Printed (objects a) s m start num l σ) as (rows & Hmain & _);
      [done..|].
    exists rows. subst o. by rewrite (Hall Hnone), Hmain.
Qed.

Lemma exit_status_of_a_run_witness :
  (AnyJson.main (sample_api [101; 105; 103])
     (Schedule [0; 1; 2]%nat [2; 0; 1]%nat) show 1 3 boot).1 = Uncaught AttributeError ∧
  exit_status (AnyJson.main (sample_api [101; 105; 103])
                 (Schedule [0; 1; 2]%nat [2; 0; 1]%nat) show 1 3 boot).1 = 1.
Proof.
  apply (proj1 (proj2 (proj2 (exit_status_of_a_run (sample_api [101; 105; 103])
           (Schedule [0; 1; 2]%nat [2; 0; 1]%nat) show 1 3 boot))) [101; 105; 103] 1%nat).
  - simpl. lia.
  - reflexivity.
  - split; apply (bool_decide_unpack _); vm_compute; exact I.
  - reflexivity.
Defined.

(** ** The first passage through the limiter *)

Lemma slept_app l1 l2 : slept (l1 ++ l2) = slept l1 ++ slept l2.
Proof. apply omap_app. Qed.

(** A fetch sleeps at most once. *)
Lemma run_pool_slept w ids order : ∀ σ,
  (length (slept (log (run_pool w ids order σ).2)) ≤
   length (slept (log σ)) + length (ids_of ids order))%nat.
Proof.
  induction order as [|k order IH]; intros σ; [simpl; lia|].
  rewrite run_pool_cons, ids_of_cons.
  destruct (ids !! k) as [id|]; [|apply IH].
  etransitivity; [apply IH|].
  rewrite get_article_by_id_run. cbn [snd log].
  rewrite !slept_app, !length_app, length_cons.
  destruct (gate_sleep_cases w 10 σ) as [[-> _]|[-> _]]; simpl; lia.
Qed.

(** X10.  The limiter starts with [last_time = 0.0], so once the clock
    reads at least 1 (it reads the seconds since 1970) the first call to
    get through the limiter does not sleep: a run with [N] fetches sleeps
    at most [N - 1] times, and not at all when it has no fetch. *)
Theorem sleeps_fewer_than_fetches w s m start num l σ :
  1 ≤ start → 1 ≤ num → start + num - 1 ≤ MODE_LIMITS m →
  listing w (mode_name m) = Json l →
  let ids := py_slice l (start - 1) (start - 1 + num) in
  admitted s ≡ₚ seq 0 (length ids) →
  (1 <= clock w (clock_reads σ))%Q →
  (length (slept (log (main w s m start num σ).2)) ≤
   length (slept (log σ)) + (length ids - 1))%nat.
Proof.
  intros Hstart Hnum Hlimit Hl ids Hadmitted Hclock.
  rewrite main_run by done. simpl. rewrite Hl. simpl. fold ids.
  set (σ1 := Machine 0 (clock_reads σ) (log σ ++ [Get (STORIES (mode_name m))])).
  assert (slept (log σ1) = slept (log σ)) as Hsame.
  { subst σ1. simpl. rewrite slept_app. simpl. by rewrite app_nil_r. }
  rewrite <- Hsame.
  rewrite <- (Permutation_length (ids_of_Permutation ids (admitted s) Hadmitted)).
  assert (gate_sleep w 10 σ1 = []) as Hawake.
  { destruct (gate_sleep_cases w 10 σ1) as [[-> _]|[_ Hwait]]; [done|].
    subst σ1. simpl in Hwait. change (interval 10) with (1 # 10)%Q in Hwait. lra. }
  clearbody σ1. clear Hsame Hadmitted Hclock.
  induction (admitted s) as [|k order IH]; [simpl; lia|].
  rewrite run_pool_cons, ids_of_cons.
  destruct (ids !! k) as [id|]; [|exact IH].
  etransitivity; [apply run_pool_slept|].
  rewrite get_article_by_id_run, Hawake. cbn [snd log].
  rewrite !slept_app, length_cons. simpl. rewrite app_nil_r. lia.
Qed.

Lemma sleeps_fewer_than_fetches_witness :
  Nat.le
    (length (slept (log (main (sample_world [101; 102; 103])
                           (Schedule [1; 0; 2]%nat [0; 1; 2]%nat) top 1 3 boot).2)))
    (length (slept (log boot))
     + (length (py_slice [101; 102; 103] (1 - 1) (1 - 1 + 3)) - 1)%nat).
Proof.
  apply (sleeps_fewer_than_fetches (sample_world [101; 102; 103])
           (Schedule [1; 0; 2]%nat [0; 1; 2]%nat) top 1 3 [101; 102; 103] boot).
  - lia.
  - lia.
  - simpl. lia.
  - reflexivity.
  - apply (bool_decide_unpack _). vm_compute. exact I.
  - vm_compute. discriminate.
Defined.
